(** * Claude CLI provider adapter (src/adapters/claude-cli.ts)

    A shallow embedding of [ClaudeCLIAdapter]: the error classifier
    [isRetryableError], the error decorator [enhanceError], the child
    process driver [spawnWithStdin] and the session and health methods
    built on top of it.

    Conventions of the model.
    - A JavaScript string is a [string] of ASCII characters; [toLowerCase]
      folds the letters A-Z and leaves every other character alone.
    - A JavaScript number is an integer in [Z], which stands for the
      double nearest to it; fractional values (a temperature of 0.1, a
      cost in dollars) are outside the model.
    - A value of type [unknown] that reaches a [catch] clause is a
      [JsValue]: either an [Error] object with its message, or any other
      value, described by what [String(value)] prints.
    - An [async] method is a function from the world before the call to
      an outcome and the world after it. The outcome is a completion
      ([Returned] for a resolved promise, [Threw] for a rejected one), or
      [Died] when the Node process ends with an uncaught exception while
      the call is pending. *)

From Stdlib Require Import String Ascii List ZArith Bool Lia.
From Stdlib Require Import DecimalString.
Import ListNotations.
Local Open Scope string_scope.
Local Open Scope Z_scope.

(* ------------------------------------------------------------------ *)
(** ** JavaScript primitives used by the adapter *)

Module Js.

  (** One character of [String.prototype.toLowerCase]. *)
Definition lowerChar (c : ascii) : ascii :=
  let n := nat_of_ascii c in
  if (Nat.leb 65 n && Nat.leb n 90)%bool then ascii_of_nat (n + 32) else c.

Fixpoint toLowerCase (s : string) : string :=
  match s with
  | EmptyString => EmptyString
  | String c t => String (lowerChar c) (toLowerCase t)
  end.

  (** [includes s needle] is [s.includes(needle)]. *)
Fixpoint includes (s needle : string) : bool :=
  (String.prefix needle s ||
   match s with
   | EmptyString => false
   | String _ t => includes t needle
   end)%bool.

  (** [s.startsWith(p)]. *)
Definition startsWith (s p : string) : bool := String.prefix p s.

  (** The decimal digits of an integer. *)
Definition digitsOf (n : Z) : string := NilZero.string_of_int (Z.to_int n).

Definition decimalLength (n : Z) : Z := Z.of_nat (String.length (digitsOf n)).

  (** The double nearest to a positive integer, ties to the even
      significand; [None] stands for [Infinity]. Integers below 2^53 are
      doubles themselves. *)
Definition nearestDouble (n : Z) : option Z :=
  if n <? 2 ^ 53 then Some n
  else
    let e := Z.log2 n - 52 in
    let q := n / 2 ^ e in
    let r := n mod 2 ^ e in
    let half := 2 ^ (e - 1) in
    let m := if r <? half then q
             else if half <? r then q + 1
             else if Z.even q then q else q + 1 in
    if m * 2 ^ e <? 2 ^ 1024 then Some (m * 2 ^ e) else None.

Definition roundsTo (x v : Z) : bool :=
  match nearestDouble v with
  | Some y => y =? x
  | None => false
  end.

  (** The shortest decimal [s * 10^p] that reads back as the double [x],
      and of those the one nearest to [x]: the digits
      [Number.prototype.toString] prints. The search starts with one
      digit, [p] being the number of digits of [x] less one. *)
Fixpoint shortest (fuel : nat) (x p : Z) : Z * Z :=
  match fuel with
  | O => (x, 0)
  | S fuel' =>
      if p <=? 0 then (x, 0)
      else
        let lo := x / 10 ^ p in
        let hi := lo + 1 in
        let okLo := roundsTo x (lo * 10 ^ p) in
        let okHi := roundsTo x (hi * 10 ^ p) in
        let dLo := x - lo * 10 ^ p in
        let dHi := hi * 10 ^ p - x in
        if (okLo && okHi)%bool then
          if dLo <? dHi then (lo, p)
          else if dHi <? dLo then (hi, p)
          else if Z.even lo then (lo, p) else (hi, p)
        else if okLo then (lo, p)
        else if okHi then (hi, p)
        else shortest fuel' x (p - 1)
  end.

Fixpoint stripZeros (fuel : nat) (s : Z) : Z :=
  match fuel with
  | O => s
  | S fuel' =>
      if ((0 <? s) && (s mod 10 =? 0))%bool then stripZeros fuel' (s / 10) else s
  end.

  (** [n.toString()] for a double above 2^53: every digit when there are
      at most 21 of them, the exponent form otherwise. *)
Definition largeToString (n : Z) : string :=
  match nearestDouble n with
  | None => "Infinity"
  | Some x =>
      let (s, p) := shortest 17 x (decimalLength x - 1) in
      let v := s * 10 ^ p in
      if decimalLength v <=? 21 then digitsOf v
      else
        match digitsOf (stripZeros 17 s) with
        | String d EmptyString => String d EmptyString
        | String d rest => String d ("." ++ rest)
        | EmptyString => EmptyString
        end ++ "e+" ++ digitsOf (decimalLength v - 1)
  end.

  (** [n.toString()] and [`${n}`] for an integer [n]: its digits up to
      2^53, and beyond that what JavaScript prints for the double. *)
Definition numberToString (n : Z) : string :=
  if Z.abs n <=? 2 ^ 53 then digitsOf n
  else if n <? 0 then "-" ++ largeToString (- n)
  else largeToString n.

  (** [`${code}`] where [code] is [number | null]. *)
Definition nullableToString (n : option Z) : string :=
  match n with
  | Some k => numberToString k
  | None => "null"
  end.

  (** [s.substring(0, n)]. *)
Definition substring0 (n : nat) (s : string) : string := String.substring 0 n s.

  (** [s.length]. *)
Definition strlen (s : string) : Z := Z.of_nat (String.length s).

  (** Truthiness of a string: only the empty string is falsy. *)
Definition truthy (s : string) : bool :=
  match s with
  | EmptyString => false
  | String _ _ => true
  end.

  (** [s || d] on strings. *)
Definition orElse (s d : string) : string := if truthy s then s else d.

  (** White space removed by [String.prototype.trim] (ASCII part). *)
Definition isWhiteSpace (c : ascii) : bool :=
  let n := nat_of_ascii c in
  ((Nat.leb 9 n && Nat.leb n 13) || Nat.eqb n 32)%bool.

Fixpoint trimStart (s : string) : string :=
  match s with
  | EmptyString => EmptyString
  | String c t => if isWhiteSpace c then trimStart t else s
  end.

Fixpoint rev (s : string) : string :=
  match s with
  | EmptyString => EmptyString
  | String c t => rev t ++ String c EmptyString
  end.

Definition trim (s : string) : string := rev (trimStart (rev (trimStart s))).

  (** The double quote and the line feed, as one-character strings. *)
Definition dquote : string := String (ascii_of_nat 34) EmptyString.
Definition newline : string := String (ascii_of_nat 10) EmptyString.

  (** [xs.join(sep)]. *)
Definition join (sep : string) (xs : list string) : string := String.concat sep xs.

End Js.

(** A value caught by [catch (error)]. *)
Inductive JsValue : Type :=
| JsError (message : string)
| JsOther (text : string).

(** [error instanceof Error ? error.message : 'Unknown error']. *)
Definition messageOrUnknown (error : JsValue) : string :=
  match error with
  | JsError m => m
  | JsOther _ => "Unknown error"
  end.

(** [error instanceof Error ? error.message : String(error)]. *)
Definition messageOrString (error : JsValue) : string :=
  match error with
  | JsError m => m
  | JsOther t => t
  end.

(* ------------------------------------------------------------------ *)
(** ** Constants imported from shared/constants *)

(** Modelled from the spec: shared/constants/index.ts is not part of the
    sources at hand. The classification names the status codes it means:
    429 for a rate limit, 502, 503 and 504 for transient network faults
    and 401 for an authentication failure. *)
Definition HTTP_TOO_MANY_REQUESTS : Z := 429.

(** Modelled from the spec: the first transient network fault, 502. *)
Definition HTTP_BAD_GATEWAY : Z := 502.

(** Modelled from the spec: the second transient network fault, 503. *)
Definition HTTP_SERVICE_UNAVAILABLE : Z := 503.

(** Modelled from the spec: the third transient network fault, 504. *)
Definition HTTP_GATEWAY_TIMEOUT : Z := 504.

(** Modelled from the spec: the status of an authentication failure, 401. *)
Definition HTTP_UNAUTHORIZED : Z := 401.

(* ------------------------------------------------------------------ *)
(** ** The adapter object *)

Record ClaudeCLIAdapter : Type := {
  binary : string;
  timeout : Z;
  maxBuffer : Z
}.

Definition name : string := "claude-cli".

Definition supportedModels : list string :=
  [ "claude-3-5-sonnet-20241022";
    "claude-3-5-haiku-20241022";
    "claude-3-opus-20240229";
    "claude-3-sonnet-20240229";
    "claude-3-haiku-20240307";
    "sonnet";
    "haiku";
    "opus" ].

(** [isWarning(stderr)]. *)
Definition isWarning (stderr : string) : bool :=
  let lowerStderr := Js.toLowerCase stderr in
  (Js.includes lowerStderr "warning" ||
   Js.includes lowerStderr "deprecated" ||
   Js.includes lowerStderr "notice")%bool.

(** [isRetryableError(error)]. *)
Definition isRetryableError (error : JsValue) : bool :=
  match error with
  | JsOther _ => false
  | JsError msg =>
      let message := Js.toLowerCase msg in
      (Js.includes message "timeout" ||
       Js.includes message "rate limit" ||
       Js.includes message (Js.numberToString HTTP_TOO_MANY_REQUESTS) ||
       Js.includes message (Js.numberToString HTTP_BAD_GATEWAY) ||
       Js.includes message (Js.numberToString HTTP_SERVICE_UNAVAILABLE) ||
       Js.includes message (Js.numberToString HTTP_GATEWAY_TIMEOUT) ||
       Js.includes message "econnreset" ||
       Js.includes message "enotfound" ||
       Js.includes message "exit code 1" ||
       Js.includes message "session corruption" ||
       Js.includes message "context length exceeded")%bool
  end.

(** [enhanceError(error, context)]. *)
Definition enhanceError (this : ClaudeCLIAdapter) (error : JsValue) (context : string)
  : JsValue :=
  let originalMessage := messageOrString error in
  if Js.includes originalMessage "command not found" then
    JsError (context ++
      ": Claude CLI not found. Please install it with: npm install -g @anthropic-ai/claude-cli")
  else if (Js.includes originalMessage "ETIMEDOUT" ||
           Js.includes originalMessage "timed out")%bool then
    JsError (context ++ ": Claude CLI timed out after " ++
             Js.numberToString (timeout this) ++
             "ms. The request may be too complex or the service may be slow.")
  else if (Js.includes originalMessage "rate limit" ||
           Js.includes originalMessage (Js.numberToString HTTP_TOO_MANY_REQUESTS))%bool then
    JsError (context ++ ": Claude API rate limit exceeded. Please wait and try again.")
  else if (Js.includes originalMessage "unauthorized" ||
           Js.includes originalMessage "authentication" ||
           Js.includes originalMessage (Js.numberToString HTTP_UNAUTHORIZED))%bool then
    JsError (context ++
      ": Claude CLI authentication failed. Please run: claude auth login")
  else if (Js.includes originalMessage "session" &&
           Js.includes originalMessage "not found")%bool then
    JsError (context ++
      ": Session expired or not found. A new session will be created automatically.")
  else if (Js.includes originalMessage "model" &&
           Js.includes originalMessage "not found")%bool then
    JsError (context ++ ": Invalid model specified. Supported models: " ++
             Js.join ", " supportedModels)
  else if (Js.includes originalMessage "ENOBUFS" ||
           Js.includes originalMessage "maxBuffer")%bool then
    JsError (context ++ ": Response too large (exceeds " ++
             Js.numberToString (maxBuffer this) ++
             " bytes). Try reducing max_tokens or splitting the request.")
  else
    JsError (context ++ ": " ++ originalMessage).

(* ------------------------------------------------------------------ *)
(** ** Completions, the world and the [Async] monad *)

(** How a call ends: a value, or a thrown value (a rejected promise). *)
Inductive Completion (A : Type) : Type :=
| Returned (a : A)
| Threw (e : JsValue).
Arguments Returned {A} a.
Arguments Threw {A} e.

(** How an awaited call goes: it completes, or the Node process dies
    while the call is pending, of an exception thrown where nothing can
    catch it (an ['error'] event that has no listener). No statement
    after the [await] runs then, and no [catch] clause sees the
    exception. *)
Inductive Outcome (A : Type) : Type :=
| Settled (c : Completion A)
| Died (e : JsValue).
Arguments Settled {A} c.
Arguments Died {A} e.

(** A completion is read as the outcome of a call that completed, also
    as the first component of a pair. *)
Coercion Settled : Completion >-> Outcome.
Arguments pair {A B}%_type_scope & a b.

(** Entries written through utils/logger. The payload keeps the textual
    fields of the logged object; counters and time stamps are left out,
    and so are the pictograms that open some messages. *)
Inductive LogEntry : Type :=
| LogDebug (message : string) (data : list (string * string))
| LogInfo (message : string) (data : list (string * string))
| LogWarn (message : string) (data : list (string * string))
| LogFailure (message : string) (data : list (string * string))
| LlmRequest (prompt : string) (sessionId : option string)
| LlmResponse (response : string) (rawResponse : string)
| LlmError (error : string) (isRetryable : bool)
| LogPerformance (operation : string) (durationMs : Z).

(** Everything a method can observe or change outside its arguments:
    the clock read by [Date.now()], how many child processes were
    spawned, how many shell commands were run, how many UUIDs were
    drawn, which children were killed, and the log. *)
Record World : Type := {
  now : Z;
  spawned : nat;
  execed : nat;
  minted : nat;
  killed : list nat;
  logged : list LogEntry
}.

Definition Async (A : Type) : Type := World -> Outcome A * World.

Definition ret {A : Type} (a : A) : Async A := fun w => (Returned a, w).

Definition throw {A : Type} (e : JsValue) : Async A := fun w => (Threw e, w).

Definition bind {A B : Type} (m : Async A) (k : A -> Async B) : Async B :=
  fun w =>
    match m w with
    | (Settled (Returned a), w') => k a w'
    | (Settled (Threw e), w') => (Threw e, w')
    | (Died e, w') => (Died e, w')
    end.

(** [try { body } catch (error) { handler }]. *)
Definition tryCatch {A : Type} (body : Async A) (handler : JsValue -> Async A)
  : Async A :=
  fun w =>
    match body w with
    | (Settled (Returned a), w') => (Returned a, w')
    | (Settled (Threw e), w') => handler e w'
    | (Died e, w') => (Died e, w')
    end.

(** A synchronous call that may throw, used inside an async body. *)
Definition lift {A : Type} (c : Completion A) : Async A := fun w => (c, w).

Declare Scope async_scope.
Delimit Scope async_scope with async.
Notation "x <- m ;; k" := (bind m (fun x => k))
  (at level 61, m at next level, right associativity) : async_scope.
Notation "m ;;; k" := (bind m (fun _ => k))
  (at level 61, right associativity) : async_scope.
Local Open Scope async_scope.

(** [Date.now()]. *)
Definition dateNow : Async Z := fun w => (Returned (now w), w).

(** The world with one more log entry. *)
Definition logTo (e : LogEntry) (w : World) : World :=
  {| now := now w; spawned := spawned w; execed := execed w;
     minted := minted w; killed := killed w;
     logged := logged w ++ [e] |}.

Definition log (e : LogEntry) : Async unit := fun w => (Returned tt, logTo e w).

Definition debug (message : string) (data : list (string * string)) : Async unit :=
  log (LogDebug message data).
Definition info (message : string) (data : list (string * string)) : Async unit :=
  log (LogInfo message data).
Definition warn (message : string) (data : list (string * string)) : Async unit :=
  log (LogWarn message data).
Definition logError (message : string) (data : list (string * string)) : Async unit :=
  log (LogFailure message data).
Definition llmRequest (prompt : string) (sessionId : option string) : Async unit :=
  log (LlmRequest prompt sessionId).
Definition llmResponse (response rawResponse : string) : Async unit :=
  log (LlmResponse response rawResponse).
Definition llmError (error : string) (isRetryable : bool) : Async unit :=
  log (LlmError error isRetryable).
Definition logPerformance (operation : string) (durationMs : Z) : Async unit :=
  log (LogPerformance operation durationMs).

(* ------------------------------------------------------------------ *)
(** ** Child processes *)

(** What [spawn] and [exec] hand back on success. *)
Record Output : Type := { stdout : string; stderr : string }.

(** Events of a child process and of its streams, as Node delivers
    them. The exit code of a [close] event is [null] when a signal ended
    the process. [StdinError] is the ['error'] event of the stream
    [child.stdin]: a write that failed, as with [EPIPE] when the child
    went away before it read what was written. *)
Inductive ChildEvent : Type :=
| StdoutData (data : string)
| StderrData (data : string)
| CloseEvent (code : option Z)
| ErrorEvent (error : JsValue)
| StdinError (error : JsValue).

(** A spawned child: whether its [stdin] stream exists, and the events
    it emits, each with the time of the event loop, in milliseconds
    after the spawn, at which it is delivered, in delivery order. A child
    that hangs emits finitely many events and then nothing. *)
Record ChildProcess : Type := {
  stdin : bool;
  events : list (Z * ChildEvent)
}.

(** The delay Node gives a timer: a delay below 1 or above 2^31 - 1 is
    replaced by 1. *)
Definition timerDelay (ms : Z) : Z :=
  if ((1 <=? ms) && (ms <=? 2147483647))%bool then ms else 1.

(** What the operating system takes at once from the first write to the
    stdin of a child that was just started: the buffer of the stream is
    empty and holds at least one page, 4096 bytes, on every platform. A
    text of at most that length has left the process when [write]
    returns; a longer one is written piece by piece as the child reads,
    and the write fails when the child goes away first. *)
Definition writtenAtOnce : Z := 4096.

(* ------------------------------------------------------------------ *)
(** ** Imported modules *)

(** schemas/claude-cli-response: the parsed CLI response, with the fields
    the adapter reads, the parser (which throws on output it cannot
    parse) and the two extractors. The module is not part of the sources
    at hand, so it is an interface here. *)
Class ResponseSchema : Type := {
  ClaudeCLIResponse : Type;
  TokenUsage : Type;
  is_error : ClaudeCLIResponse -> bool;
  session_id : ClaudeCLIResponse -> string;
  total_cost_usd : ClaudeCLIResponse -> option Z;
  parseClaudeCLIResponse : string -> Completion ClaudeCLIResponse;
  extractContentFromResponse : ClaudeCLIResponse -> string;
  getTokenUsage : ClaudeCLIResponse -> TokenUsage
}.

(** shared/constants: the defaults of the constructor. *)
Class Defaults : Type := {
  CLAUDE_CLI_BINARY : string;
  CLAUDE_CLI_MAX_BUFFER : Z;
  DEFAULT_MODEL : string;
  DEFAULT_REQUEST_TIMEOUT_MS : Z
}.

(** The Node runtime. [spawn n bin args input] is the [n]-th child
    process of the run, started as [bin args] and fed [input] on its
    standard input; [execAsync n cmd ms] is the [n]-th shell command,
    with how it completes and how long it takes; [randomUUID n] is the
    [n]-th identifier drawn from node:crypto. [clockLag n] is how far
    [Date.now()], read when the method goes on after the [n]-th child,
    is from the time of the event loop at which the promise settled:
    Node runs a timer when it is due or later, a handler takes time, and
    the clock counts whole milliseconds. *)
Class Host : Type := {
  spawn : nat -> string -> list string -> string -> ChildProcess;
  execAsync : nat -> string -> Z -> Completion Output * Z;
  randomUUID : nat -> string;
  clockLag : nat -> Z
}.

(* ------------------------------------------------------------------ *)
(** ** Configuration and the constructor *)

Record ClaudeCLIAdapterConfig : Type := {
  cfg_binary : option string;
  cfg_timeout : option Z;
  cfg_maxBuffer : option Z
}.

(** [x || d] for an optional string. *)
Definition stringOr (x : option string) (d : string) : string :=
  match x with
  | Some s => Js.orElse s d
  | None => d
  end.

(** [x || d] for an optional number: [undefined] and [0] are falsy. *)
Definition numberOr (x : option Z) (d : Z) : Z :=
  match x with
  | Some n => if n =? 0 then d else n
  | None => d
  end.

Definition constructor `{defaults : Defaults} (config : ClaudeCLIAdapterConfig) : ClaudeCLIAdapter :=
  {| binary := stringOr (cfg_binary config) CLAUDE_CLI_BINARY;
     timeout := numberOr (cfg_timeout config) DEFAULT_REQUEST_TIMEOUT_MS;
     maxBuffer := numberOr (cfg_maxBuffer config) CLAUDE_CLI_MAX_BUFFER |}.

(* ------------------------------------------------------------------ *)
(** ** spawnWithStdin *)

(** The variables captured by the promise executor of [spawnWithStdin],
    the timer, the write to [child.stdin] and the promise itself.
    [p_writing] says that part of the input is still to be written;
    [p_settled] holds the first call of [resolve] or [reject] with the
    time of the event loop at which it happened (for the timer: the time
    at which it was due); [p_died] holds the exception that ended the
    process, if one did. *)
Record Pending : Type := {
  p_stdout : string;
  p_stderr : string;
  p_finished : bool;
  p_timer : bool;
  p_killed : bool;
  p_writing : bool;
  p_settled : option (Completion Output * Z);
  p_died : option (JsValue * Z);
  p_log : list LogEntry
}.

Definition pending0 : Pending :=
  {| p_stdout := EmptyString; p_stderr := EmptyString; p_finished := false;
     p_timer := true; p_killed := false; p_writing := false;
     p_settled := None; p_died := None; p_log := [] |}.

(** [resolve] and [reject]: a promise keeps its first settlement. *)
Definition settle (r : Completion Output) (t : Z) (p : Pending) : Pending :=
  match p_settled p with
  | Some _ => p
  | None =>
      {| p_stdout := p_stdout p; p_stderr := p_stderr p;
         p_finished := p_finished p; p_timer := p_timer p;
         p_killed := p_killed p; p_writing := p_writing p;
         p_settled := Some (r, t); p_died := p_died p; p_log := p_log p |}
  end.

(** [finished = true; clearTimeout(timeout)]. *)
Definition finishAndClear (p : Pending) : Pending :=
  {| p_stdout := p_stdout p; p_stderr := p_stderr p; p_finished := true;
     p_timer := false; p_killed := p_killed p; p_writing := p_writing p;
     p_settled := p_settled p; p_died := p_died p; p_log := p_log p |}.

Definition timeoutMessage (this : ClaudeCLIAdapter) : string :=
  "Claude CLI command timed out after " ++ Js.numberToString (timeout this) ++ "ms".

(** The callback given to [setTimeout]. The timer is spent once it ran. *)
Definition onTimeout (this : ClaudeCLIAdapter) (p : Pending) : Pending :=
  if negb (p_finished p) then
    settle (Threw (JsError (timeoutMessage this))) (timerDelay (timeout this))
      {| p_stdout := p_stdout p; p_stderr := p_stderr p; p_finished := true;
         p_timer := false; p_killed := true; p_writing := p_writing p;
         p_settled := p_settled p; p_died := p_died p; p_log := p_log p |}
  else
    {| p_stdout := p_stdout p; p_stderr := p_stderr p; p_finished := p_finished p;
       p_timer := false; p_killed := p_killed p; p_writing := p_writing p;
       p_settled := p_settled p; p_died := p_died p; p_log := p_log p |}.

(** The message built by the [close] handler for a non-zero exit code. *)
Definition exitMessage (code : option Z) (input stderr : string) : string :=
  let errorMessage :=
    "Claude CLI command failed with exit code " ++ Js.nullableToString code in
  let errorMessage :=
    match code with
    | Some 1 =>
        let inputLength := Js.strlen input in
        if 10000 <? inputLength then
          errorMessage ++ " (likely cause: context length exceeded with " ++
          Js.numberToString inputLength ++
          " character prompt - consider using Claude Sonnet instead of Haiku for large prompts)"
        else
          errorMessage ++
          " (possible causes: session corruption, rate limiting, or API authentication issues)"
    | _ => errorMessage
    end in
  errorMessage ++ ": " ++ Js.orElse stderr "No error output".

(** The [errorDetails] logged by the [close] handler. *)
Definition exitDetails (code : option Z) (out : Output) : LogEntry :=
  LogFailure "Claude CLI process failed with detailed context"
    [("exitCode", Js.nullableToString code);
     ("stderr", Js.orElse (stderr out) "No error output");
     ("stdout", if Js.truthy (stdout out)
                then Js.substring0 500 (stdout out) else "No output")].

(** [child.on('close', (code) => ...)]. *)
Definition onClose (input : string) (t : Z) (code : option Z) (p : Pending) : Pending :=
  if negb (p_finished p) then
    let p := finishAndClear p in
    let out := {| stdout := p_stdout p; stderr := p_stderr p |} in
    match code with
    | Some 0 => settle (Returned out) t p
    | _ =>
        settle (Threw (JsError (exitMessage code input (p_stderr p)))) t
          {| p_stdout := p_stdout p; p_stderr := p_stderr p;
             p_finished := p_finished p; p_timer := p_timer p;
             p_killed := p_killed p; p_writing := p_writing p;
             p_settled := p_settled p; p_died := p_died p;
             p_log := p_log p ++ [exitDetails code out] |}
    end
  else p.

(** [child.on('error', (error) => ...)]. *)
Definition onError (t : Z) (error : JsValue) (p : Pending) : Pending :=
  if negb (p_finished p) then settle (Threw error) t (finishAndClear p) else p.

(** The ['error'] event of [child.stdin]. The source gives the stream
    no listener, so Node throws the error where nothing catches it and
    the process ends. The event comes from a write that was still going
    on: no write is left when the input was written at once. When the
    promise has settled the method went on and returned before the
    event, which is then no longer a matter of this call. *)
Definition onStdinError (t : Z) (error : JsValue) (p : Pending) : Pending :=
  if p_writing p then
    match p_settled p with
    | Some _ => p
    | None =>
        {| p_stdout := p_stdout p; p_stderr := p_stderr p;
           p_finished := p_finished p; p_timer := p_timer p;
           p_killed := p_killed p; p_writing := p_writing p;
           p_settled := p_settled p; p_died := Some (error, t);
           p_log := p_log p |}
    end
  else p.

(** The handlers registered on the child, by event. *)
Definition onEvent (input : string) (t : Z) (ev : ChildEvent) (p : Pending) : Pending :=
  match ev with
  | StdoutData data =>
      {| p_stdout := p_stdout p ++ data; p_stderr := p_stderr p;
         p_finished := p_finished p; p_timer := p_timer p;
         p_killed := p_killed p; p_writing := p_writing p;
         p_settled := p_settled p; p_died := p_died p; p_log := p_log p |}
  | StderrData data =>
      {| p_stdout := p_stdout p; p_stderr := p_stderr p ++ data;
         p_finished := p_finished p; p_timer := p_timer p;
         p_killed := p_killed p; p_writing := p_writing p;
         p_settled := p_settled p; p_died := p_died p; p_log := p_log p |}
  | CloseEvent code => onClose input t code p
  | ErrorEvent error => onError t error p
  | StdinError error => onStdinError t error p
  end.

(** The last statement of the executor: write the input and close the
    stream, or give up at once when there is no stream. What does not
    fit in [writtenAtOnce] characters is still being written when the
    executor returns. *)
Definition writeInput (input : string) (p : Pending) (child : ChildProcess) : Pending :=
  if stdin child then
    {| p_stdout := p_stdout p; p_stderr := p_stderr p;
       p_finished := p_finished p; p_timer := p_timer p;
       p_killed := p_killed p; p_writing := writtenAtOnce <? Js.strlen input;
       p_settled := p_settled p; p_died := p_died p; p_log := p_log p |}
  else if negb (p_finished p) then
    settle (Threw (JsError "Failed to access stdin of Claude CLI process")) 0
      (finishAndClear p)
  else p.

(** The event loop after the executor returned: events are delivered in
    order; an armed timer runs before the first event that is delivered
    at or after the time it is due, and when the child has nothing more
    to say. Nothing runs once the process has died. *)
Fixpoint pump (this : ClaudeCLIAdapter) (input : string)
  (evs : list (Z * ChildEvent)) (p : Pending) : Pending :=
  match evs with
  | [] =>
      match p_died p with
      | Some _ => p
      | None => if p_timer p then onTimeout this p else p
      end
  | (t, ev) :: rest =>
      match p_died p with
      | Some _ => p
      | None =>
          let p := if (p_timer p && (timerDelay (timeout this) <=? t))%bool
                   then onTimeout this p else p in
          pump this input rest (onEvent input t ev p)
      end
  end.

(** The promise of one [spawnWithStdin] call, run to its settlement or
    to the end of the process. *)
Definition runChild (this : ClaudeCLIAdapter) (input : string) (child : ChildProcess)
  : Pending :=
  pump this input (events child) (writeInput input pending0 child).

(** How the call went, and at what time of the event loop. *)
Definition wentAs (p : Pending) : option (Outcome Output * Z) :=
  match p_died p, p_settled p with
  | Some (e, t), _ => Some (Died e, t)
  | None, Some (r, t) => Some (Settled r, t)
  | None, None => None
  end.

(** [spawnWithStdin(args, input)], awaited. The last branch stands for a
    promise that never settles in a process that lives on;
    [runChild_ending] shows there is none. *)
Definition spawnWithStdin `{host : Host} (this : ClaudeCLIAdapter) (args : list string)
  (input : string) : Async Output :=
  fun w =>
    let p := runChild this input (spawn (spawned w) (binary this) args input) in
    let w' t :=
      {| now := now w + t + clockLag (spawned w);
         spawned := S (spawned w); execed := execed w;
         minted := minted w;
         killed := if p_killed p then killed w ++ [spawned w] else killed w;
         logged := logged w ++ p_log p |} in
    match wentAs p with
    | Some (r, t) => (r, w' t)
    | None => (Threw (JsOther "pending"), w' 0)
    end.

(* ------------------------------------------------------------------ *)
(** ** The methods of the adapter *)

Record ProviderSessionOptions : Type := {
  so_model : option string;
  so_temperature : option Z
}.

Record ProviderPromptOptions : Type := {
  po_model : option string;
  po_maxTokens : option Z;
  po_temperature : option Z
}.

(** The options of the two probes: [{ maxTokens: 10, temperature: 0 }]. *)
Definition probeOptions : ProviderPromptOptions :=
  {| po_model := None; po_maxTokens := Some 10; po_temperature := Some 0 |}.

(** Truthiness of [string | undefined] and of [string | null]. *)
Definition given (x : option string) : bool :=
  match x with
  | Some s => Js.truthy s
  | None => false
  end.

(** [s.substring(0, n) + (s.length > n ? '...' : '')]. *)
Definition preview (n : nat) (s : string) : string :=
  Js.substring0 n s ++ (if Z.of_nat n <? Js.strlen s then "..." else EmptyString).

Record SessionValidation : Type := {
  valid : bool;
  sv_error : option string;
  responseTime : option Z
}.

Inductive HealthDetails : Type :=
| DetailsUnavailable (binary : string) (timeout : Z)
| DetailsTested (binary : string) (testResponse : string)
| DetailsFailed (binary : string) (error : JsValue).

Record ProviderHealth : Type := {
  healthy : bool;
  checkedAt : Z;
  responseTimeMs : Z;
  ph_error : option string;
  details : HealthDetails
}.

(** The prompts of the two probes. *)
Definition healthPrompt : string := "Say " ++ Js.dquote ++ "OK" ++ Js.dquote.

Definition validationPrompt : string :=
  "Respond with just " ++ Js.dquote ++ "OK" ++ Js.dquote ++
  " to confirm session is working.".

Section Methods.

Context {schema : ResponseSchema} {defaults : Defaults} {host : Host}.

Record ResponseMetadata : Type := {
  md_sessionId : string;
  md_model : string;
  md_jsonMode : bool;
  md_temperature : option Z;
  md_maxTokens : option Z;
  md_cost : option Z;
  md_rawResponse : ClaudeCLIResponse
}.

Record ProviderResponse : Type := {
  content : string;
  tokenUsage : TokenUsage;
  metadata : ResponseMetadata;
  truncated : bool;
  stopReason : string
}.

(** [randomUUID()]. *)
Definition drawUUID : Async string :=
  fun w =>
    (Returned (randomUUID (minted w)),
     {| now := now w; spawned := spawned w; execed := execed w;
        minted := S (minted w); killed := killed w; logged := logged w |}).

(** [await execAsync(command, { timeout })]. *)
Definition exec (command : string) (ms : Z) : Async Output :=
  fun w =>
    let (r, took) := execAsync (execed w) command ms in
    (r,
     {| now := now w + took; spawned := spawned w; execed := S (execed w);
        minted := minted w; killed := killed w; logged := logged w |}).

(** The logging of [stderr] after a successful command. *)
Definition reportStderr (label warning : string) (err : string) : Async unit :=
  if (Js.truthy err && negb (isWarning err))%bool then warn label [("stderr", err)]
  else if Js.truthy err then debug warning [("stderr", err)]
  else ret tt.

(** The command line of [sendPrompt]. *)
Definition promptArgs (sessionId : option string) (options : ProviderPromptOptions)
  : list string :=
  ["--output-format"; "json"] ++
  ["--max-turns"; "0"] ++
  (match sessionId with
   | Some s => if Js.truthy s then ["--resume"; s] else []
   | None => []
   end) ++
  (match po_model options with
   | Some m => if (Js.truthy m && negb (given sessionId))%bool then ["--model"; m] else []
   | None => []
   end).

(** [sendPrompt(sessionId, prompt, options)]. *)
Definition sendPrompt (this : ClaudeCLIAdapter) (sessionId : option string)
  (prompt : string) (options : ProviderPromptOptions) : Async ProviderResponse :=
  startTime <- dateNow ;;
  llmRequest prompt sessionId ;;;
  info "SESSION_LIFECYCLE: Using Claude CLI session for prompt"
    [("sessionId", stringOr sessionId "none");
     ("sessionReuse", if given sessionId then "REUSING_EXISTING" else "NO_SESSION");
     ("promptPreview", preview 200 prompt);
     ("provider", name)] ;;;
  debug "Claude CLI sendPrompt called"
    [("sessionId", match sessionId with Some s => s | None => "null" end)] ;;;
  tryCatch
    (let args := promptArgs sessionId options in
     let command := binary this ++ " " ++ Js.join " " args in
     debug "Executing Claude CLI command with stdin"
       [("binary", binary this); ("command", command)] ;;;
     out <- spawnWithStdin this args prompt ;;
     debug "Claude CLI command executed" [] ;;;
     reportStderr "Claude CLI stderr output" "Claude CLI warning output" (stderr out) ;;;
     debug "Parsing Claude CLI response"
       [("responsePreview", Js.substring0 200 (stdout out))] ;;;
     claudeResponse <- lift (parseClaudeCLIResponse (stdout out)) ;;
     if is_error claudeResponse then
       let errorContent := extractContentFromResponse claudeResponse in
       llmError errorContent (isRetryableError (JsError errorContent)) ;;;
       logError "Claude CLI returned error response"
         [("errorMessage", errorContent);
          ("sessionId", session_id claudeResponse)] ;;;
       throw (JsError ("Claude CLI error: " ++ errorContent))
     else
       let content := extractContentFromResponse claudeResponse in
       let tokenUsage := getTokenUsage claudeResponse in
       finished <- dateNow ;;
       let totalDuration := finished - startTime in
       llmResponse content (stdout out) ;;;
       logPerformance "Claude CLI Request" totalDuration ;;;
       info "SESSION_LIFECYCLE: Claude CLI prompt completed successfully"
         [("sessionId", session_id claudeResponse); ("provider", name)] ;;;
       info "Claude CLI response parsed successfully"
         [("sessionId", session_id claudeResponse)] ;;;
       ret {| content := content;
              tokenUsage := tokenUsage;
              metadata :=
                {| md_sessionId := session_id claudeResponse;
                   md_model := stringOr (po_model options) DEFAULT_MODEL;
                   md_jsonMode := true;
                   md_temperature := po_temperature options;
                   md_maxTokens := po_maxTokens options;
                   md_cost := total_cost_usd claudeResponse;
                   md_rawResponse := claudeResponse |};
              truncated := false;
              stopReason := "end_turn" |})
    (fun error =>
       let errorMessage := messageOrUnknown error in
       llmError errorMessage (isRetryableError error) ;;;
       logError "Claude CLI sendPrompt failed"
         [("errorMessage", errorMessage); ("binary", binary this)] ;;;
       throw (enhanceError this error "Failed to send prompt to Claude CLI")).

(** The command line of [createSession]. *)
Definition sessionArgs (sessionId : string) (options : ProviderSessionOptions)
  : list string :=
  ["--output-format"; "json"] ++
  ["--session-id"; sessionId] ++
  (match so_model options with
   | Some m => if Js.truthy m then ["--model"; m] else []
   | None => []
   end).

(** [createSession(context, options)]. *)
Definition createSession (this : ClaudeCLIAdapter) (context : string)
  (options : ProviderSessionOptions) : Async string :=
  sessionId <- drawUUID ;;
  startTime <- dateNow ;;
  info "SESSION_LIFECYCLE: Creating new Claude CLI session"
    [("sessionId", sessionId);
     ("contextPreview", preview 200 context);
     ("model", stringOr (so_model options) DEFAULT_MODEL);
     ("provider", name)] ;;;
  debug "Creating Claude CLI session" [("sessionId", sessionId)] ;;;
  tryCatch
    (let args := sessionArgs sessionId options in
     let contextWithOptions :=
       match so_temperature options with
       | Some t =>
           context ++ Js.newline ++ Js.newline ++ "Please use a temperature of " ++
           Js.numberToString t ++ " for your responses."
       | None => context
       end in
     out <- spawnWithStdin this args contextWithOptions ;;
     debug "Claude CLI session created successfully" [("sessionId", sessionId)] ;;;
     reportStderr "Claude CLI session creation stderr output"
       "Claude CLI session creation warning output" (stderr out) ;;;
     claudeResponse <- lift (parseClaudeCLIResponse (stdout out)) ;;
     if is_error claudeResponse then
       let errorContent := extractContentFromResponse claudeResponse in
       throw (JsError ("Failed to create session: " ++ errorContent))
     else
       info "SESSION_LIFECYCLE: Claude CLI session established successfully"
         [("sessionId", sessionId);
          ("model", stringOr (so_model options) DEFAULT_MODEL);
          ("provider", name)] ;;;
       info "SESSION_LIFECYCLE: Claude CLI session ready for use"
         [("sessionId", Js.substring0 8 sessionId ++ "...")] ;;;
       ret (session_id claudeResponse))
    (fun error =>
       let errorMessage := messageOrUnknown error in
       logError "SESSION_LIFECYCLE: Claude CLI session creation failed"
         [("sessionId", sessionId); ("errorMessage", errorMessage);
          ("provider", name)] ;;;
       throw (enhanceError this error "Failed to create Claude CLI session")).

(** [validateSession(sessionId)]. *)
Definition validateSession (this : ClaudeCLIAdapter) (sessionId : string)
  : Async SessionValidation :=
  startTime <- dateNow ;;
  info "SESSION_VALIDATION: Testing session health"
    [("sessionId", Js.substring0 8 sessionId ++ "..."); ("provider", name)] ;;;
  tryCatch
    (testResponse <- sendPrompt this (Some sessionId) validationPrompt probeOptions ;;
     finished <- dateNow ;;
     let responseTime := finished - startTime in
     let isValid := Js.includes (Js.toLowerCase (content testResponse)) "ok" in
     info ("SESSION_VALIDATION: Session " ++ (if isValid then "valid" else "invalid"))
       [("sessionId", Js.substring0 8 sessionId ++ "...");
        ("response", Js.substring0 50 (content testResponse));
        ("provider", name)] ;;;
     ret {| valid := isValid; sv_error := None; responseTime := Some responseTime |})
    (fun error =>
       finished <- dateNow ;;
       let responseTime := finished - startTime in
       let errorMessage := messageOrUnknown error in
       logError "SESSION_VALIDATION: Session validation failed"
         [("sessionId", Js.substring0 8 sessionId ++ "...");
          ("errorMessage", errorMessage); ("provider", name)] ;;;
       ret {| valid := false; sv_error := Some errorMessage;
              responseTime := Some responseTime |}).

(** [destroySession(sessionId)]. *)
Definition destroySession (this : ClaudeCLIAdapter) (sessionId : string) : Async unit :=
  debug "Destroying Claude CLI session" [("sessionId", sessionId)] ;;;
  info "Claude CLI session destroyed"
    [("sessionId", sessionId);
     ("note", "Session will expire naturally in Claude CLI")].

(** [isAvailable()]. *)
Definition isAvailable (this : ClaudeCLIAdapter) : Async bool :=
  tryCatch
    (which <- exec ("which " ++ binary this) 5000 ;;
     if negb (Js.truthy (Js.trim (stdout which))) then ret false
     else
       version <- exec (binary this ++ " --version") 5000 ;;
       let versionOutput := stdout version in
       ret (Js.includes (Js.toLowerCase versionOutput) "claude" ||
            Js.includes versionOutput "Claude")%bool)
    (fun _ => ret false).

(** [getHealth()]. *)
Definition getHealth (this : ClaudeCLIAdapter) : Async ProviderHealth :=
  startTime <- dateNow ;;
  tryCatch
    (available <- isAvailable this ;;
     checked <- dateNow ;;
     let responseTime := checked - startTime in
     if negb available then
       ret {| healthy := false;
              checkedAt := checked;
              responseTimeMs := responseTime;
              ph_error := Some "Claude CLI not found or not responding";
              details := DetailsUnavailable (binary this) (timeout this) |}
     else
       testResponse <- sendPrompt this None healthPrompt probeOptions ;;
       finished <- dateNow ;;
       ret {| healthy := true;
              checkedAt := finished;
              responseTimeMs := finished - startTime;
              ph_error := None;
              details :=
                DetailsTested (binary this)
                  (Js.substring0 100 (content testResponse)) |})
    (fun error =>
       finished <- dateNow ;;
       ret {| healthy := false;
              checkedAt := finished;
              responseTimeMs := finished - startTime;
              ph_error := Some (messageOrUnknown error);
              details := DetailsFailed (binary this) error |}).

End Methods.

(* ------------------------------------------------------------------ *)
(** ** Static utility methods *)

(** [Math.ceil(n / d)] for integers [n] and a positive integer [d]. *)
Definition ceilDiv (n d : Z) : Z := - ((- n) / d).

Record ModelRecommendation : Type := {
  estimatedTokens : Z;
  recommendedModel : string;
  recommendationReason : string
}.

(** [ClaudeCLIAdapter.getModelRecommendation(promptLength)]. *)
Definition getModelRecommendation (promptLength : Z) : ModelRecommendation :=
  let estimatedTokens := ceilDiv promptLength 4 in
  if 50000 <? estimatedTokens then
    {| estimatedTokens := estimatedTokens;
       recommendedModel := "claude-3-5-sonnet-20241022";
       recommendationReason := "Large prompt requires Sonnet for reliable processing" |}
  else if 20000 <? estimatedTokens then
    {| estimatedTokens := estimatedTokens;
       recommendedModel := "claude-3-5-sonnet-20241022";
       recommendationReason := "Medium-large prompt works better with Sonnet than Haiku" |}
  else
    {| estimatedTokens := estimatedTokens;
       recommendedModel := "claude-3-5-haiku-20241022";
       recommendationReason := "Small prompt suitable for efficient Haiku model" |}.

(** [arg.replace(/'/g, "'\\''")]: every single quote becomes the four
    characters quote, backslash, quote, quote. *)
Fixpoint replaceQuotes (arg : string) : string :=
  match arg with
  | EmptyString => EmptyString
  | String c t =>
      if Ascii.eqb c "'" then "'\''" ++ replaceQuotes t
      else String c (replaceQuotes t)
  end.

(** [ClaudeCLIAdapter.escapeShellArgument(arg)]. *)
Definition escapeShellArgument (arg : string) : string :=
  "'" ++ replaceQuotes arg ++ "'".

(** The longest prefix of [s] that ends with the character [c]: what a
    greedy [[\s\S]*] followed by [c] matches at the start of [s]. *)
Fixpoint upToLast (c : ascii) (s : string) : option string :=
  match s with
  | EmptyString => None
  | String x t =>
      match upToLast c t with
      | Some m => Some (String x m)
      | None => if Ascii.eqb x c then Some (String x EmptyString) else None
      end
  end.

(** What the pattern, a brace, anything, a closing brace, or else a
    bracket, anything, a closing bracket, matches when tried at the
    start of [String x t]: the first alternative first. *)
Definition jsonMatchHere (x : ascii) (t : string) : option string :=
  match (if Ascii.eqb x "{" then upToLast "}" t else None) with
  | Some m => Some (String x m)
  | None =>
      match (if Ascii.eqb x "[" then upToLast "]" t else None) with
      | Some m => Some (String x m)
      | None => None
      end
  end.

(** [s.match(/\{[\s\S]*\}|\[[\s\S]*\]/)]: the match at the leftmost
    position that has one. *)
Fixpoint jsonMatch (s : string) : option string :=
  match s with
  | EmptyString => None
  | String x t =>
      match jsonMatchHere x t with
      | Some m => Some m
      | None => jsonMatch t
      end
  end.

(** [ClaudeCLIAdapter.extractResponseFromOutput(output, isJsonMode)]. *)
Definition extractResponseFromOutput (output : string) (isJsonMode : bool) : string :=
  let trimmedOutput := Js.trim output in
  if isJsonMode then
    match jsonMatch trimmedOutput with
    | Some m => m
    | None => trimmedOutput
    end
  else trimmedOutput.

(** [ClaudeCLIAdapter.createEnhancedError(error, context)]. *)
Definition createEnhancedError (error : JsValue) (context : string) : JsValue :=
  let originalMessage := messageOrString error in
  JsError (context ++ ": " ++ originalMessage).

(* ------------------------------------------------------------------ *)
(** * Readings of the model

    The definitions of this part are not in the source: they say, in
    closed form, what the handlers and the method bodies above compute,
    and they name the notions the statements below need. The lemmas of
    the last part relate each of them to the code. *)

(** The first thing that happens to a child whose [stdin] exists: it
    closes with an exit code, it fails to run, the deadline passes, or
    the write to its stdin fails while the promise is pending. This
    reads the event list directly, without the handlers;
    [runChild_ending] below relates it to [pump]. [writing] says that
    the input was not written at once. *)
Inductive Ending : Type :=
| Exited (code : option Z) (out : Output) (t : Z)
| FailedToRun (error : JsValue) (t : Z)
| DeadlinePassed
| StreamFailed (error : JsValue) (t : Z).

Fixpoint ending (delay : Z) (writing : bool) (evs : list (Z * ChildEvent))
  (out err : string) : Ending :=
  match evs with
  | [] => DeadlinePassed
  | (t, ev) :: rest =>
      if delay <=? t then DeadlinePassed
      else
        match ev with
        | StdoutData data => ending delay writing rest (out ++ data) err
        | StderrData data => ending delay writing rest out (err ++ data)
        | CloseEvent code => Exited code {| stdout := out; stderr := err |} t
        | ErrorEvent error => FailedToRun error t
        | StdinError error =>
            if writing then StreamFailed error t
            else ending delay writing rest out err
        end
  end.

(** The input is too long to be written at once. *)
Definition stillWriting (input : string) : bool := writtenAtOnce <? Js.strlen input.

Definition endingOf (this : ClaudeCLIAdapter) (input : string) (child : ChildProcess)
  : Ending :=
  ending (timerDelay (timeout this)) (stillWriting input) (events child)
    EmptyString EmptyString.

(** How the call goes for each ending, and when. *)
Definition settlementOf (this : ClaudeCLIAdapter) (input : string) (e : Ending)
  : Outcome Output * Z :=
  match e with
  | Exited (Some 0) out t => (Returned out, t)
  | Exited code out t => (Threw (JsError (exitMessage code input (stderr out))), t)
  | FailedToRun error t => (Threw error, t)
  | DeadlinePassed =>
      (Threw (JsError (timeoutMessage this)), timerDelay (timeout this))
  | StreamFailed error t => (Died error, t)
  end.

Definition killedBy (e : Ending) : bool :=
  match e with
  | DeadlinePassed => true
  | _ => false
  end.

Definition loggedBy (e : Ending) : list LogEntry :=
  match e with
  | Exited (Some 0) _ _ => []
  | Exited code out _ => [exitDetails code out]
  | _ => []
  end.

(** How a [spawnWithStdin] call goes, as a function of the child. *)
Definition childSettlement (this : ClaudeCLIAdapter) (input : string)
  (child : ChildProcess) : Outcome Output * Z :=
  if stdin child then settlementOf this input (endingOf this input child)
  else (Threw (JsError "Failed to access stdin of Claude CLI process"), 0).

Definition childResult (this : ClaudeCLIAdapter) (input : string)
  (child : ChildProcess) : Outcome Output :=
  fst (childSettlement this input child).

(** What the promise holds after a call that went as [o]: its
    settlement, or nothing when the process died. *)
Definition settledPart {A : Type} (o : Outcome A * Z) : option (Completion A * Z) :=
  match o with
  | (Settled r, t) => Some (r, t)
  | (Died _, _) => None
  end.


(** The events that carry output of the child. *)
Definition isOutput (ev : ChildEvent) : bool :=
  match ev with
  | StdoutData _ | StderrData _ => true
  | CloseEvent _ | ErrorEvent _ | StdinError _ => false
  end.

(** The write to the stdin of the child fails while the promise is
    pending: the ending of the call is the error of the stream. *)
Definition stdinBreaks (this : ClaudeCLIAdapter) (input : string)
  (child : ChildProcess) (error : JsValue) : Prop :=
  stdin child = true /\ exists t, endingOf this input child = StreamFailed error t.



Section Outcomes.

Context {schema : ResponseSchema} {defaults : Defaults} {host : Host}.
Variable this : ClaudeCLIAdapter.

(** [post m w Q] says that running [m] in the world [w] ends in an
    outcome and a world that satisfy [Q]. *)
Definition post {A : Type} (m : Async A) (w : World)
  (Q : Outcome A -> World -> Prop) : Prop :=
  Q (fst (m w)) (snd (m w)).

(** The world after [reportStderr]. *)
Definition reported (label warning err : string) (w : World) : World :=
  snd (reportStderr label warning err w).

(** The world after the child of [spawnWithStdin] settled. *)
Definition afterSpawn (args : list string) (input : string) (w : World) : World :=
  let child := spawn (spawned w) (binary this) args input in
  {| now := now w + snd (childSettlement this input child) + clockLag (spawned w);
     spawned := S (spawned w); execed := execed w; minted := minted w;
     killed := if (stdin child && killedBy (endingOf this input child))%bool
               then killed w ++ [spawned w] else killed w;
     logged := logged w ++
               (if stdin child then loggedBy (endingOf this input child) else []) |}.

(** The world after [randomUUID()]. *)
Definition afterDraw (w : World) : World :=
  {| now := now w; spawned := spawned w; execed := execed w;
     minted := S (minted w); killed := killed w; logged := logged w |}.

(** The world after a shell command. *)
Definition afterExec (command : string) (ms : Z) (w : World) : World :=
  {| now := now w + snd (execAsync (execed w) command ms);
     spawned := spawned w; execed := S (execed w); minted := minted w;
     killed := killed w; logged := logged w |}.

(** The value [sendPrompt] resolves to for a parsed response. *)
Definition responseFor (options : ProviderPromptOptions)
  (claudeResponse : ClaudeCLIResponse) : ProviderResponse :=
  {| content := extractContentFromResponse claudeResponse;
     tokenUsage := getTokenUsage claudeResponse;
     metadata :=
       {| md_sessionId := session_id claudeResponse;
          md_model := stringOr (po_model options) DEFAULT_MODEL;
          md_jsonMode := true;
          md_temperature := po_temperature options;
          md_maxTokens := po_maxTokens options;
          md_cost := total_cost_usd claudeResponse;
          md_rawResponse := claudeResponse |};
     truncated := false;
     stopReason := "end_turn" |}.

(** How the [try] block of [sendPrompt] goes, given how the child
    went. *)
Definition promptAttempt (options : ProviderPromptOptions) (r : Outcome Output)
  : Outcome ProviderResponse :=
  match r with
  | Died e => Died e
  | Settled (Threw e) => Threw e
  | Settled (Returned out) =>
      match parseClaudeCLIResponse (stdout out) with
      | Threw e => Threw e
      | Returned claudeResponse =>
          if is_error claudeResponse then
            Threw (JsError ("Claude CLI error: " ++
                            extractContentFromResponse claudeResponse))
          else Returned (responseFor options claudeResponse)
      end
  end.

(** The [catch] clause of a method: rethrow through [enhanceError]. *)
Definition rethrown {A : Type} (context : string) (c : Outcome A) : Outcome A :=
  match c with
  | Settled (Threw e) => Threw (enhanceError this e context)
  | c => c
  end.

(** The child process started by [sendPrompt] in a world with [n]
    children so far. *)
Definition promptChild (sessionId : option string) (prompt : string)
  (options : ProviderPromptOptions) (n : nat) : ChildProcess :=
  spawn n (binary this) (promptArgs sessionId options) prompt.

Definition promptOutcome (sessionId : option string) (prompt : string)
  (options : ProviderPromptOptions) (n : nat) : Outcome ProviderResponse :=
  rethrown "Failed to send prompt to Claude CLI"
    (promptAttempt options
       (childResult this prompt (promptChild sessionId prompt options n))).

(** What [sendPrompt] does to the world. *)
Record promptEffects (sessionId : option string) (prompt : string)
  (options : ProviderPromptOptions) (w w' : World) : Prop := {
  prompt_spawned : spawned w' = S (spawned w);
  prompt_execed : execed w' = execed w;
  prompt_minted : minted w' = minted w;
  prompt_now :
    now w' = now w + snd (childSettlement this prompt
                            (promptChild sessionId prompt options (spawned w)))
             + clockLag (spawned w);
  prompt_killed :
    killed w' =
    (if (stdin (promptChild sessionId prompt options (spawned w)) &&
         killedBy (endingOf this prompt
                     (promptChild sessionId prompt options (spawned w))))%bool
     then killed w ++ [spawned w] else killed w)%list;
  prompt_classified :
    forall e,
      promptAttempt options
        (childResult this prompt (promptChild sessionId prompt options (spawned w)))
      = Threw e ->
      In (LlmError (messageOrUnknown e) (isRetryableError e)) (logged w')
}.

(** The text fed to the child of [createSession]. *)
Definition sessionInput (context : string) (options : ProviderSessionOptions) : string :=
  match so_temperature options with
  | Some t =>
      context ++ Js.newline ++ Js.newline ++ "Please use a temperature of " ++
      Js.numberToString t ++ " for your responses."
  | None => context
  end.

(** The child process started by [createSession] for the identifier
    [uuid], in a world with [n] children so far. *)
Definition sessionChild (context : string) (options : ProviderSessionOptions)
  (uuid : string) (n : nat) : ChildProcess :=
  spawn n (binary this) (sessionArgs uuid options) (sessionInput context options).

(** How the [try] block of [createSession] goes. *)
Definition sessionAttempt (r : Outcome Output) : Outcome string :=
  match r with
  | Died e => Died e
  | Settled (Threw e) => Threw e
  | Settled (Returned out) =>
      match parseClaudeCLIResponse (stdout out) with
      | Threw e => Threw e
      | Returned claudeResponse =>
          if is_error claudeResponse then
            Threw (JsError ("Failed to create session: " ++
                            extractContentFromResponse claudeResponse))
          else Returned (session_id claudeResponse)
      end
  end.

Definition sessionOutcome (context : string) (options : ProviderSessionOptions)
  (uuid : string) (n : nat) : Outcome string :=
  rethrown "Failed to create Claude CLI session"
    (sessionAttempt
       (childResult this (sessionInput context options)
          (sessionChild context options uuid n))).

(** What [validateSession] answers, given how the probe completed and
    the time it took. *)
Definition validationOf (probe : Completion ProviderResponse) (elapsed : Z)
  : SessionValidation :=
  match probe with
  | Returned testResponse =>
      {| valid := Js.includes (Js.toLowerCase (content testResponse)) "ok";
         sv_error := None;
         responseTime := Some elapsed |}
  | Threw error =>
      {| valid := false;
         sv_error := Some (messageOrUnknown error);
         responseTime := Some elapsed |}
  end.

(** What [isAvailable] answers when [n] shell commands were run before. *)
Definition available (n : nat) : bool :=
  match fst (execAsync n ("which " ++ binary this) 5000) with
  | Threw _ => false
  | Returned which =>
      if negb (Js.truthy (Js.trim (stdout which))) then false
      else
        match fst (execAsync (S n) (binary this ++ " --version") 5000) with
        | Threw _ => false
        | Returned version =>
            (Js.includes (Js.toLowerCase (stdout version)) "claude" ||
             Js.includes (stdout version) "Claude")%bool
        end
  end.

(** What [getHealth] answers: [up] is the answer of [isAvailable],
    [probe] the completion of the test prompt, [checked] the time of the
    answer and [elapsed] the time since the call. *)
Definition healthOf (up : bool) (probe : Completion ProviderResponse)
  (checked elapsed : Z) : ProviderHealth :=
  if negb up then
    {| healthy := false; checkedAt := checked; responseTimeMs := elapsed;
       ph_error := Some "Claude CLI not found or not responding";
       details := DetailsUnavailable (binary this) (timeout this) |}
  else
    match probe with
    | Returned testResponse =>
        {| healthy := true; checkedAt := checked; responseTimeMs := elapsed;
           ph_error := None;
           details := DetailsTested (binary this)
                        (Js.substring0 100 (content testResponse)) |}
    | Threw error =>
        {| healthy := false; checkedAt := checked; responseTimeMs := elapsed;
           ph_error := Some (messageOrUnknown error);
           details := DetailsFailed (binary this) error |}
    end.

(** The invocation failures the contract of [sendPrompt] lists, stated on
    the child process of the call and the input it is fed. *)
Inductive invocationFails (input : string) (child : ChildProcess) : Prop :=
| exits_non_zero (code : option Z) (out : Output) (t : Z) :
    stdin child = true ->
    endingOf this input child = Exited code out t ->
    code <> Some 0 ->
    invocationFails input child
| cannot_be_started (error : JsValue) (t : Z) :
    stdin child = true ->
    endingOf this input child = FailedToRun error t ->
    invocationFails input child
| stdin_not_accessible :
    stdin child = false ->
    invocationFails input child
| deadline_exceeded :
    stdin child = true ->
    endingOf this input child = DeadlinePassed ->
    invocationFails input child
| output_not_parsed (out : Output) (t : Z) (error : JsValue) :
    stdin child = true ->
    endingOf this input child = Exited (Some 0) out t ->
    parseClaudeCLIResponse (stdout out) = Threw error ->
    invocationFails input child
| response_is_error (out : Output) (t : Z) (claudeResponse : ClaudeCLIResponse) :
    stdin child = true ->
    endingOf this input child = Exited (Some 0) out t ->
    parseClaudeCLIResponse (stdout out) = Returned claudeResponse ->
    is_error claudeResponse = true ->
    invocationFails input child.

(** What it means for the CLI to honour [--session-id]: whenever a
    session child closes with a response that parses and is not an
    error, the response reports the identifier the child was given. *)
Definition honoursSessionId : Prop :=
  forall context options uuid n out t claudeResponse,
    p_settled (runChild this (sessionInput context options)
                 (sessionChild context options uuid n)) = Some (Returned out, t) ->
    parseClaudeCLIResponse (stdout out) = Returned claudeResponse ->
    is_error claudeResponse = false ->
    session_id claudeResponse = uuid.

End Outcomes.

(* ------------------------------------------------------------------ *)
(** ** Notions about strings and messages *)

(** How a POSIX shell reads a word made of single-quoted stretches and
    backslash-escaped characters: inside quotes every character but the
    quote stands for itself; outside, a quote opens a stretch and a
    backslash makes the next character literal. [None] when the text is
    not such a word. *)
Fixpoint readWord (quoted : bool) (s : string) : option string :=
  match s with
  | EmptyString => if quoted then None else Some EmptyString
  | String c t =>
      if quoted then
        if Ascii.eqb c "'" then readWord false t
        else option_map (String c) (readWord true t)
      else if Ascii.eqb c "'" then readWord true t
      else if Ascii.eqb c "\" then
        match t with
        | String d t' => option_map (String d) (readWord false t')
        | EmptyString => None
        end
      else None
  end.

(** The first and the last character of a string. *)
Definition firstChar (s : string) : option ascii :=
  match s with
  | EmptyString => None
  | String c _ => Some c
  end.

Fixpoint lastChar (s : string) : option ascii :=
  match s with
  | EmptyString => None
  | String c EmptyString => Some c
  | String _ t => lastChar t
  end.

(** What a child wrote on its standard output and on its standard
    error, in order. *)
Fixpoint stdoutOf (evs : list (Z * ChildEvent)) : string :=
  match evs with
  | [] => EmptyString
  | (_, StdoutData data) :: rest => data ++ stdoutOf rest
  | _ :: rest => stdoutOf rest
  end.

Fixpoint stderrOf (evs : list (Z * ChildEvent)) : string :=
  match evs with
  | [] => EmptyString
  | (_, StderrData data) :: rest => data ++ stderrOf rest
  | _ :: rest => stderrOf rest
  end.

(** An event that carries output and is delivered before [delay]. *)
Definition writesBefore (delay : Z) (te : Z * ChildEvent) : bool :=
  (isOutput (snd te) && (fst te <? delay))%bool.

(** The patterns of [enhanceError] that come before the rate limit. *)
Definition notFoundOrTimedOut (message : string) : bool :=
  (Js.includes message "command not found" ||
   Js.includes message "ETIMEDOUT" ||
   Js.includes message "timed out")%bool.

(** The rate limit pattern of [enhanceError]. *)
Definition rateLimited (message : string) : bool :=
  (Js.includes message "rate limit" ||
   Js.includes message (Js.numberToString HTTP_TOO_MANY_REQUESTS))%bool.

(** The session pattern of [enhanceError]. *)
Definition sessionNotFound (message : string) : bool :=
  (Js.includes message "session" && Js.includes message "not found")%bool.

(** Every character of [s] passes the test [f]. *)
Fixpoint allChars (f : ascii -> bool) (s : string) : bool :=
  match s with
  | EmptyString => true
  | String c t => (f c && allChars f t)%bool
  end.

(** A decimal digit or the minus sign. *)
Definition numeric (c : ascii) : bool :=
  let n := nat_of_ascii c in
  ((Nat.leb 48 n && Nat.leb n 57) || Nat.eqb n 45)%bool.

Definition differs (c : ascii) (x : ascii) : bool := negb (Ascii.eqb x c).

(** A character of a printed number: a digit, the minus sign, the point
    and the exponent mark, or a letter of "Infinity". *)
Definition numberChar (c : ascii) : bool :=
  (numeric c ||
   existsb (Ascii.eqb c) [".";"e";"+";"I";"n";"f";"i";"t";"y"]%char)%bool.

(** The substrings [isRetryableError] looks for in the lowered message. *)
Definition retryableMarkers : list string :=
  [ "timeout"; "rate limit";
    Js.numberToString HTTP_TOO_MANY_REQUESTS;
    Js.numberToString HTTP_BAD_GATEWAY;
    Js.numberToString HTTP_SERVICE_UNAVAILABLE;
    Js.numberToString HTTP_GATEWAY_TIMEOUT;
    "econnreset"; "enotfound"; "exit code 1"; "session corruption";
    "context length exceeded" ].

(** The digits of [n] hold one of the status codes the classifier
    looks for, as those of 4290 or 15030 do. *)
Definition spellsStatusCode (n : Z) : bool :=
  existsb (Js.includes (Js.numberToString n))
    (map Js.numberToString
       [HTTP_TOO_MANY_REQUESTS; HTTP_BAD_GATEWAY; HTTP_SERVICE_UNAVAILABLE;
        HTTP_GATEWAY_TIMEOUT]).

(** The patterns by which [enhanceError] recognises the fatal errors. *)
Definition authenticationFailure (message : string) : bool :=
  (Js.includes message "unauthorized" ||
   Js.includes message "authentication" ||
   Js.includes message (Js.numberToString HTTP_UNAUTHORIZED))%bool.

Definition invalidModel (message : string) : bool :=
  (Js.includes message "model" && Js.includes message "not found")%bool.

Definition responseTooLarge (message : string) : bool :=
  (Js.includes message "ENOBUFS" || Js.includes message "maxBuffer")%bool.

(* ------------------------------------------------------------------ *)
(** ** Concrete hosts *)

Module Scenario.

(** A response schema small enough to run: the CLI prints the session
    identifier and nothing else, the content of a response is that same
    text, an empty output does not parse and a text that opens with
    "Error" is an error response. *)
Definition plainSchema : ResponseSchema := {|
  ClaudeCLIResponse := string;
  TokenUsage := Z;
  is_error := fun r => Js.startsWith r "Error";
  session_id := fun r => r;
  total_cost_usd := fun _ => None;
  parseClaudeCLIResponse := fun out =>
    if Js.truthy out then Returned out
    else Threw (JsError "Failed to parse Claude CLI response");
  extractContentFromResponse := fun r => r;
  getTokenUsage := fun r => Js.strlen r
|}.

(** Defaults for the examples. *)
Definition sampleDefaults : Defaults := {|
  CLAUDE_CLI_BINARY := "claude";
  CLAUDE_CLI_MAX_BUFFER := 10485760;
  DEFAULT_MODEL := "sonnet";
  DEFAULT_REQUEST_TIMEOUT_MS := 30000
|}.

Definition sampleUUID (n : nat) : string := "uuid-" ++ Js.numberToString (Z.of_nat n).

Definition sampleExec (n : nat) (command : string) (ms : Z) : Completion Output * Z :=
  if Js.startsWith command "which "
  then (Returned {| stdout := "/usr/local/bin/claude"; stderr := EmptyString |}, 3)
  else (Returned {| stdout := "1.0.0 (Claude Code)"; stderr := EmptyString |}, 40).

(** A child that prints [text] after 900 ms and exits with code 0. *)
Definition prints (text : string) : ChildProcess :=
  {| stdin := true;
     events := [(900, StdoutData text); (905, CloseEvent (Some 0))] |}.

(** A CLI that honours [--session-id] and answers "OK" to a prompt. *)
Definition honouringHost : Host := {|
  spawn := fun _ _ args _ =>
    match args with
    | _ :: _ :: "--session-id" :: id :: _ => prints id
    | _ => prints "OK"
    end;
  execAsync := sampleExec;
  randomUUID := sampleUUID;
  clockLag := fun _ => 0
|}.

(** A CLI that ignores [--session-id] and reports a session of its own. *)
Definition ignoringHost : Host := {|
  spawn := fun _ _ _ _ => prints "session-1";
  execAsync := sampleExec;
  randomUUID := sampleUUID;
  clockLag := fun _ => 0
|}.

(** A CLI that answers "no" to every prompt. *)
Definition curtHost : Host := {|
  spawn := fun _ _ _ _ => prints "no";
  execAsync := sampleExec;
  randomUUID := sampleUUID;
  clockLag := fun _ => 0
|}.


(** A CLI that refuses the API key and exits with code 1. *)
Definition refusingHost : Host := {|
  spawn := fun _ _ _ _ =>
    {| stdin := true;
       events := [(200, StderrData "Invalid API key"); (210, CloseEvent (Some 1))] |};
  execAsync := sampleExec;
  randomUUID := sampleUUID;
  clockLag := fun _ => 0
|}.

(** A CLI that reads nothing and exits with code 0 at once: the write
    to its stdin fails with [EPIPE] as soon as it has gone, before Node
    reports that the child closed. *)
Definition quittingHost : Host := {|
  spawn := fun _ _ _ _ =>
    {| stdin := true;
       events := [(3, StdinError (JsError "write EPIPE")); (4, CloseEvent (Some 0))] |};
  execAsync := sampleExec;
  randomUUID := sampleUUID;
  clockLag := fun _ => 0
|}.

(** A prompt of [n] characters. *)
Fixpoint promptOfLength (n : nat) : string :=
  match n with
  | O => EmptyString
  | S n' => String "x" (promptOfLength n')
  end.

Definition adapter : ClaudeCLIAdapter :=
  constructor (defaults := sampleDefaults) {| cfg_binary := None; cfg_timeout := None; cfg_maxBuffer := None |}.

Definition noOptions : ProviderSessionOptions :=
  {| so_model := None; so_temperature := None |}.

Definition world0 : World :=
  {| now := 0; spawned := 0; execed := 0; minted := 0; killed := []; logged := [] |}.

(** The response the honouring CLI gives to a probe. *)
Definition okResponse : @ProviderResponse plainSchema :=
  @Build_ProviderResponse plainSchema "OK" 2
    (@Build_ResponseMetadata plainSchema "OK" "sonnet" true (Some 0) (Some 10) None "OK")
    false "end_turn".

(** The response the curt CLI gives to a probe. *)
Definition noResponse : @ProviderResponse plainSchema :=
  @Build_ProviderResponse plainSchema "no" 2
    (@Build_ResponseMetadata plainSchema "no" "sonnet" true (Some 0) (Some 10) None "no")
    false "end_turn".

End Scenario.

(* ------------------------------------------------------------------ *)
(** * Proofs *)

(* ------------------------------------------------------------------ *)
(** ** The promise of [spawnWithStdin] *)

Section ChildProcessFacts.

Variable this : ClaudeCLIAdapter.
Variable input : string.

(** Once the promise has settled and the timer is gone, no event changes
    the promise, the kill flag or the log, and none ends the process. *)
Lemma onEvent_idle (t : Z) (ev : ChildEvent) (p : Pending) :
  p_finished p = true -> p_timer p = false -> p_settled p <> None ->
  p_died p = None ->
  let q := onEvent input t ev p in
  p_finished q = true /\ p_timer q = false /\ p_settled q = p_settled p /\
  p_died q = None /\ p_killed q = p_killed p /\ p_log q = p_log p.
Proof.
  intros Hf Ht Hs Hd. destruct ev; simpl; unfold onClose, onError, onStdinError;
    rewrite ?Hf; simpl; try (repeat split; assumption || reflexivity).
  destruct (p_writing p); [|repeat split; assumption || reflexivity].
  destruct (p_settled p) eqn:E; [repeat split; assumption || reflexivity|].
  contradiction Hs; reflexivity.
Qed.

Lemma pump_idle (evs : list (Z * ChildEvent)) :
  forall p, p_finished p = true -> p_timer p = false -> p_settled p <> None ->
  p_died p = None ->
  let q := pump this input evs p in
  p_settled q = p_settled p /\ p_died q = None /\ p_killed q = p_killed p /\
  p_log q = p_log p.
Proof.
  induction evs as [|[t ev] rest IH]; intros p Hf Ht Hs Hd; simpl.
  - rewrite Hd, Ht. auto.
  - rewrite Hd, Ht. simpl.
    destruct (onEvent_idle t ev p Hf Ht Hs Hd) as (Hf' & Ht' & Hs' & Hd' & Hk & Hl).
    assert (Hs1 : p_settled (onEvent input t ev p) <> None) by (rewrite Hs'; exact Hs).
    destruct (IH _ Hf' Ht' Hs1 Hd') as (Hs2 & Hd2 & Hk2 & Hl2).
    rewrite Hs2, Hd2, Hk2, Hl2. auto.
Qed.

(** Nothing runs in a process that has died. *)
Lemma pump_dead (evs : list (Z * ChildEvent)) (p : Pending) (d : JsValue * Z) :
  p_died p = Some d -> pump this input evs p = p.
Proof. intros Hd. destruct evs as [|[t ev] rest]; simpl; rewrite Hd; reflexivity. Qed.

(** While the promise is pending the handlers do what [ending] says. *)
Lemma pump_running (evs : list (Z * ChildEvent)) :
  forall p, p_finished p = false -> p_timer p = true -> p_settled p = None ->
  p_died p = None ->
  let e := ending (timerDelay (timeout this)) (p_writing p) evs
             (p_stdout p) (p_stderr p) in
  let q := pump this input evs p in
  wentAs q = Some (settlementOf this input e) /\
  p_settled q = settledPart (settlementOf this input e) /\
  p_killed q = (p_killed p || killedBy e)%bool /\
  p_log q = (p_log p ++ loggedBy e)%list.
Proof.
  induction evs as [|[t ev] rest IH]; intros p Hf Ht Hs Hd; simpl.
  - rewrite Hd, Ht. unfold wentAs, onTimeout, settle. rewrite Hf, Hs. simpl.
    rewrite Hd, orb_true_r, app_nil_r. repeat split; auto.
  - rewrite Hd, Ht. simpl.
    destruct (timerDelay (timeout this) <=? t) eqn:Hdue.
    + (* the timer runs first *)
      set (p1 := onTimeout this p).
      assert (H1 : p_finished p1 = true /\ p_timer p1 = false /\
                   p_settled p1 = Some (Threw (JsError (timeoutMessage this)),
                                        timerDelay (timeout this)) /\
                   p_died p1 = None /\
                   p_killed p1 = true /\ p_log p1 = p_log p).
      { unfold p1, onTimeout, settle. rewrite Hf, Hs. simpl. repeat split; auto. }
      destruct H1 as (Hf1 & Ht1 & Hs1 & Hd1 & Hk1 & Hl1).
      assert (Hn1 : p_settled p1 <> None) by (rewrite Hs1; discriminate).
      destruct (onEvent_idle t ev p1 Hf1 Ht1 Hn1 Hd1)
        as (Hf2 & Ht2 & Hs2 & Hd2 & Hk2 & Hl2).
      assert (Hn2 : p_settled (onEvent input t ev p1) <> None)
        by (rewrite Hs2; exact Hn1).
      destruct (pump_idle rest _ Hf2 Ht2 Hn2 Hd2) as (Hs3 & Hd3 & Hk3 & Hl3).
      unfold wentAs. rewrite Hs3, Hd3, Hk3, Hl3, Hs2, Hk2, Hl2, Hs1, Hk1, Hl1.
      simpl. rewrite orb_true_r, app_nil_r. repeat split; auto.
    + destruct ev as [data|data|code|error|error]; simpl.
      * apply (IH {| p_stdout := p_stdout p ++ data; p_stderr := p_stderr p;
                     p_finished := p_finished p; p_timer := p_timer p;
                     p_killed := p_killed p; p_writing := p_writing p;
                     p_settled := p_settled p; p_died := p_died p;
                     p_log := p_log p |}); assumption.
      * apply (IH {| p_stdout := p_stdout p; p_stderr := p_stderr p ++ data;
                     p_finished := p_finished p; p_timer := p_timer p;
                     p_killed := p_killed p; p_writing := p_writing p;
                     p_settled := p_settled p; p_died := p_died p;
                     p_log := p_log p |}); assumption.
      * destruct code as [[| [c|c|] | c]|];
          match goal with
          | |- context [pump this input rest (onClose input t ?code p)] =>
              set (q := onClose input t code p);
              assert (H1 : p_finished q = true /\ p_timer q = false /\
                           p_settled q <> None /\ p_died q = None)
                by (unfold q, onClose, settle, finishAndClear; rewrite Hf; simpl;
                    rewrite Hs; simpl; repeat split; try assumption; discriminate);
              destruct H1 as (Hf1 & Ht1 & Hn1 & Hd1);
              destruct (pump_idle rest _ Hf1 Ht1 Hn1 Hd1) as (Hs3 & Hd3 & Hk3 & Hl3);
              unfold wentAs; rewrite Hs3, Hd3, Hk3, Hl3;
              unfold q, onClose, settle, finishAndClear; rewrite Hf; simpl;
              rewrite Hs; simpl; rewrite ?app_nil_r, orb_false_r;
              repeat split; reflexivity
          end.
      * set (q := onError t error p).
        assert (H1 : p_finished q = true /\ p_timer q = false /\
                     p_settled q = Some (Threw error, t) /\ p_died q = None /\
                     p_killed q = p_killed p /\ p_log q = p_log p).
        { unfold q, onError, settle, finishAndClear. rewrite Hf. simpl.
          rewrite Hs. simpl. repeat split; auto. }
        destruct H1 as (Hf1 & Ht1 & Hs1 & Hd1 & Hk1 & Hl1).
        assert (Hn1 : p_settled q <> None) by (rewrite Hs1; discriminate).
        destruct (pump_idle rest _ Hf1 Ht1 Hn1 Hd1) as (Hs3 & Hd3 & Hk3 & Hl3).
        unfold wentAs. rewrite Hs3, Hd3, Hk3, Hl3, Hs1, Hk1, Hl1.
        simpl. rewrite orb_false_r, app_nil_r. repeat split; auto.
      * unfold onStdinError. destruct (p_writing p) eqn:Hw.
        -- rewrite Hs.
           rewrite (pump_dead rest _ (error, t)) by reflexivity.
           unfold wentAs. simpl. rewrite orb_false_r, app_nil_r.
           repeat split; auto.
        -- specialize (IH p Hf Ht Hs Hd). rewrite Hw in IH. exact IH.
Qed.

(** A [spawnWithStdin] call always goes as [childSettlement] says: the
    promise settles or the process dies. The child is killed exactly
    when the deadline passed first. *)
Lemma runChild_ending (child : ChildProcess) :
  let q := runChild this input child in
  wentAs q = Some (childSettlement this input child) /\
  p_settled q = settledPart (childSettlement this input child) /\
  p_killed q = (stdin child && killedBy (endingOf this input child))%bool /\
  p_log q = (if stdin child then loggedBy (endingOf this input child) else []).
Proof.
  unfold runChild, writeInput, childSettlement, endingOf, stillWriting.
  destruct (stdin child); simpl.
  - apply (pump_running (events child)
             {| p_stdout := EmptyString; p_stderr := EmptyString;
                p_finished := false; p_timer := true; p_killed := false;
                p_writing := writtenAtOnce <? Js.strlen input;
                p_settled := None; p_died := None; p_log := [] |}); reflexivity.
  - destruct (pump_idle (events child)
                (settle (Threw (JsError "Failed to access stdin of Claude CLI process"))
                   0 (finishAndClear pending0)))
      as (Hs & Hd & Hk & Hl); try reflexivity; [discriminate|].
    unfold wentAs. rewrite Hs, Hd, Hk, Hl. repeat split; auto.
Qed.

(** The promise holds a settlement exactly when the call went that way. *)
Lemma runChild_settled (child : ChildProcess) (r : Completion Output) (t : Z) :
  p_settled (runChild this input child) = Some (r, t) <->
  childSettlement this input child = (Settled r, t).
Proof.
  destruct (runChild_ending child) as (_ & Hs & _). rewrite Hs.
  destruct (childSettlement this input child) as [[c|e] t0]; simpl; split;
    intros H; try discriminate H; injection H as <- <-; reflexivity.
Qed.

End ChildProcessFacts.

(* ------------------------------------------------------------------ *)
(** ** Stepping through a method body

    The lemmas below take one statement of a method body at a time. *)

Section MethodFacts.

Context {schema : ResponseSchema} {defaults : Defaults} {host : Host}.
Variable this : ClaudeCLIAdapter.

Lemma post_ret {A : Type} (a : A) (w : World) (Q : Outcome A -> World -> Prop) :
  Q (Returned a) w -> post (ret a) w Q.
Proof. exact (fun H => H). Qed.

Lemma post_throw {A : Type} (e : JsValue) (w : World)
  (Q : Outcome A -> World -> Prop) :
  Q (Threw e) w -> post (throw e) w Q.
Proof. exact (fun H => H). Qed.

Lemma post_log (e : LogEntry) (w : World) (Q : Outcome unit -> World -> Prop) :
  Q (Returned tt) (logTo e w) -> post (log e) w Q.
Proof. exact (fun H => H). Qed.

Lemma post_bind {A B : Type} (m : Async A) (k : A -> Async B) (w : World)
  (Q : Outcome B -> World -> Prop) :
  post m w (fun c w1 =>
              match c with
              | Settled (Returned a) => post (k a) w1 Q
              | Settled (Threw e) => Q (Threw e) w1
              | Died e => Q (Died e) w1
              end) ->
  post (bind m k) w Q.
Proof. unfold post, bind. destruct (m w) as [[[a|e]|e] w1]; exact (fun H => H). Qed.

Lemma post_tryCatch {A : Type} (body : Async A) (handler : JsValue -> Async A)
  (w : World) (Q : Outcome A -> World -> Prop) :
  post body w (fun c w1 =>
                 match c with
                 | Settled (Returned a) => Q (Returned a) w1
                 | Settled (Threw e) => post (handler e) w1 Q
                 | Died e => Q (Died e) w1
                 end) ->
  post (tryCatch body handler) w Q.
Proof.
  unfold post, tryCatch. destruct (body w) as [[[a|e]|e] w1]; exact (fun H => H).
Qed.

Lemma post_bind_dateNow {B : Type} (k : Z -> Async B) (w : World)
  (Q : Outcome B -> World -> Prop) :
  post (k (now w)) w Q -> post (bind dateNow k) w Q.
Proof. exact (fun H => H). Qed.

Lemma post_bind_log {B : Type} (e : LogEntry) (k : unit -> Async B) (w : World)
  (Q : Outcome B -> World -> Prop) :
  post (k tt) (logTo e w) Q -> post (bind (log e) k) w Q.
Proof. exact (fun H => H). Qed.

Lemma post_bind_lift {A B : Type} (c : Completion A) (k : A -> Async B)
  (w : World) (Q : Outcome B -> World -> Prop) :
  match c with
  | Returned a => post (k a) w Q
  | Threw e => Q (Threw e) w
  end ->
  post (bind (lift c) k) w Q.
Proof. unfold post, bind, lift. destruct c; exact (fun H => H). Qed.

Lemma post_bind_reportStderr {B : Type} (label warning err : string)
  (k : unit -> Async B) (w : World) (Q : Outcome B -> World -> Prop) :
  post (k tt) (reported label warning err w) Q ->
  post (bind (reportStderr label warning err) k) w Q.
Proof.
  unfold post, bind, reported, reportStderr, warn, debug, log, ret.
  destruct (Js.truthy err && negb (isWarning err))%bool; [|destruct (Js.truthy err)];
    exact (fun H => H).
Qed.

(** [spawnWithStdin] through [childSettlement]. *)
Lemma spawnWithStdin_spec (args : list string) (input : string) (w : World) :
  spawnWithStdin this args input w =
  (childResult this input (spawn (spawned w) (binary this) args input),
   afterSpawn this args input w).
Proof.
  unfold spawnWithStdin, childResult, afterSpawn.
  set (child := spawn (spawned w) (binary this) args input).
  destruct (runChild_ending this input child) as (Hs & _ & Hk & Hl).
  rewrite Hs, Hk, Hl. destruct (childSettlement this input child). reflexivity.
Qed.

Lemma post_bind_spawn {B : Type} (args : list string) (input : string)
  (k : Output -> Async B) (w : World) (Q : Outcome B -> World -> Prop) :
  match childResult this input (spawn (spawned w) (binary this) args input) with
  | Settled (Returned out) => post (k out) (afterSpawn this args input w) Q
  | Settled (Threw e) => Q (Threw e) (afterSpawn this args input w)
  | Died e => Q (Died e) (afterSpawn this args input w)
  end ->
  post (bind (spawnWithStdin this args input) k) w Q.
Proof.
  unfold post, bind. rewrite spawnWithStdin_spec.
  destruct (childResult _ _ _) as [[out|e]|e]; exact (fun H => H).
Qed.

Lemma post_bind_drawUUID {B : Type} (k : string -> Async B) (w : World)
  (Q : Outcome B -> World -> Prop) :
  post (k (randomUUID (minted w))) (afterDraw w) Q -> post (bind drawUUID k) w Q.
Proof. exact (fun H => H). Qed.

Lemma post_bind_exec {B : Type} (command : string) (ms : Z)
  (k : Output -> Async B) (w : World) (Q : Outcome B -> World -> Prop) :
  match fst (execAsync (execed w) command ms) with
  | Returned out => post (k out) (afterExec command ms w) Q
  | Threw e => Q (Threw e) (afterExec command ms w)
  end ->
  post (bind (exec command ms) k) w Q.
Proof.
  unfold post, bind, exec, afterExec.
  destruct (execAsync (execed w) command ms) as [[out|e] took]; exact (fun H => H).
Qed.

Lemma post_weaken {A : Type} (m : Async A) (w : World)
  (Q Q' : Outcome A -> World -> Prop) :
  post m w Q -> (forall c w', Q c w' -> Q' c w') -> post m w Q'.
Proof. unfold post. intros H HQ. apply HQ, H. Qed.

(** *** Projections of the worlds met on the way *)

Lemma reported_frame (label warning err : string) (w : World) :
  now (reported label warning err w) = now w /\
  spawned (reported label warning err w) = spawned w /\
  execed (reported label warning err w) = execed w /\
  minted (reported label warning err w) = minted w /\
  killed (reported label warning err w) = killed w /\
  exists l, logged (reported label warning err w) = (logged w ++ l)%list.
Proof.
  unfold reported, reportStderr, warn, debug, log, ret.
  destruct (Js.truthy err && negb (isWarning err))%bool; [|destruct (Js.truthy err)];
    cbn [snd logTo now spawned execed minted killed logged];
    repeat (split; [reflexivity|]).
  - now exists [LogWarn label [("stderr", err)]].
  - now exists [LogDebug warning [("stderr", err)]].
  - exists []. now rewrite app_nil_r.
Qed.

Lemma spawned_reported a b c w : spawned (reported a b c w) = spawned w.
Proof. apply reported_frame. Qed.
Lemma execed_reported a b c w : execed (reported a b c w) = execed w.
Proof. apply reported_frame. Qed.
Lemma minted_reported a b c w : minted (reported a b c w) = minted w.
Proof. apply reported_frame. Qed.
Lemma killed_reported a b c w : killed (reported a b c w) = killed w.
Proof. apply reported_frame. Qed.
Lemma now_reported a b c w : now (reported a b c w) = now w.
Proof. apply reported_frame. Qed.

Lemma In_logTo (e e' : LogEntry) (w : World) :
  In e (logged w) -> In e (logged (logTo e' w)).
Proof. intros H. unfold logTo; cbn [logged]. apply in_or_app. now left. Qed.

Lemma In_logTo_here (e : LogEntry) (w : World) : In e (logged (logTo e w)).
Proof. unfold logTo; cbn [logged]. apply in_or_app. right. now left. Qed.

Create Rewrite HintDb world.
Hint Rewrite spawned_reported execed_reported minted_reported killed_reported
  now_reported : world.

Ltac world :=
  cbn [logTo afterSpawn afterDraw afterExec now spawned execed minted killed logged];
  autorewrite with world;
  cbn [logTo afterSpawn afterDraw afterExec now spawned execed minted killed logged].

Ltac step :=
  cbv beta iota zeta;
  lazymatch goal with
  | |- post (bind dateNow _) _ _ => apply post_bind_dateNow
  | |- post (bind (log _) _) _ _ => apply post_bind_log
  | |- post (bind (reportStderr _ _ _) _) _ _ => apply post_bind_reportStderr
  | |- post (bind (spawnWithStdin _ _ _) _) _ _ => apply post_bind_spawn
  | |- post (bind (lift _) _) _ _ => apply post_bind_lift
  | |- post (bind drawUUID _) _ _ => apply post_bind_drawUUID
  | |- post (bind (exec _ _) _) _ _ => apply post_bind_exec
  | |- post (tryCatch _ _) _ _ => apply post_tryCatch
  | |- post (ret _) _ _ => apply post_ret
  | |- post (throw _) _ _ => apply post_throw
  | |- post (log _) _ _ => apply post_log
  end;
  cbv beta iota zeta.

Lemma sendPrompt_spec (sessionId : option string) (prompt : string)
  (options : ProviderPromptOptions) (w : World) :
  post (sendPrompt this sessionId prompt options) w
    (fun c w' =>
       c = promptOutcome this sessionId prompt options (spawned w) /\
       promptEffects this sessionId prompt options w w').
Proof.
  unfold sendPrompt, llmRequest, llmResponse, llmError, logPerformance, logError,
    info, debug.
  do 7 step. cbn [logTo spawned].
  unfold promptOutcome. fold (promptChild this sessionId prompt options (spawned w)).
  assert (Hlog : forall (e : JsValue) (w0 : World) (entry : LogEntry),
             In (LlmError (messageOrUnknown e) (isRetryableError e))
               (logged (logTo entry
                  (logTo (LlmError (messageOrUnknown e) (isRetryableError e)) w0))))
    by (intros; apply In_logTo, In_logTo_here).
  destruct (childResult _ _ _) as [[out|e0]|d] eqn:Hchild.
  - do 4 step. destruct (parseClaudeCLIResponse (stdout out)) as [r|e1] eqn:Hparse.
    + cbv beta iota zeta. destruct (is_error r) eqn:Herr.
      * do 6 step.
        split; [unfold promptAttempt; rewrite Hparse, Herr; reflexivity|].
        split; [world; reflexivity .. | intros e He]. unfold promptAttempt in He.
        rewrite Hchild, Hparse, Herr in He. injection He as <-. apply Hlog.
      * do 6 step.
        split; [unfold promptAttempt; rewrite Hparse, Herr; reflexivity|].
        split; [world; reflexivity .. | intros e He]. unfold promptAttempt in He.
        rewrite Hchild, Hparse, Herr in He. discriminate He.
    + do 3 step.
      split; [unfold promptAttempt; rewrite Hparse; reflexivity|].
      split; [world; reflexivity .. | intros e He]. unfold promptAttempt in He.
      rewrite Hchild, Hparse in He. injection He as <-. apply Hlog.
  - do 3 step.
    split; [reflexivity|].
    split; [world; reflexivity .. | intros e He]. unfold promptAttempt in He.
    rewrite Hchild in He. injection He as <-. apply Hlog.
  - split; [reflexivity|].
    split; [world; reflexivity .. | intros e He]. unfold promptAttempt in He.
    rewrite Hchild in He. discriminate He.
Qed.

Lemma post_bind_sendPrompt {B : Type} (sessionId : option string) (prompt : string)
  (options : ProviderPromptOptions) (k : ProviderResponse -> Async B) (w : World)
  (Q : Outcome B -> World -> Prop) :
  (forall w1, promptEffects this sessionId prompt options w w1 ->
     match promptOutcome this sessionId prompt options (spawned w) with
     | Settled (Returned a) => post (k a) w1 Q
     | Settled (Threw e) => Q (Threw e) w1
     | Died e => Q (Died e) w1
     end) ->
  post (bind (sendPrompt this sessionId prompt options) k) w Q.
Proof.
  intros H. apply post_bind.
  apply (post_weaken _ _ _ _ (sendPrompt_spec sessionId prompt options w)).
  intros c w1 [-> Hw]. apply H, Hw.
Qed.

Lemma createSession_spec (context : string) (options : ProviderSessionOptions)
  (w : World) :
  post (createSession this context options) w
    (fun c w' =>
       c = sessionOutcome this context options (randomUUID (minted w)) (spawned w) /\
       minted w' = S (minted w) /\ spawned w' = S (spawned w) /\
       execed w' = execed w).
Proof.
  unfold createSession, logError, info, debug.
  do 6 step. cbn [logTo afterDraw spawned].
  unfold sessionOutcome.
  fold (sessionInput context options).
  fold (sessionChild this context options (randomUUID (minted w)) (spawned w)).
  destruct (childResult _ _ _) as [[out|e0]|d] eqn:Hchild.
  - do 3 step. destruct (parseClaudeCLIResponse (stdout out)) as [r|e1] eqn:Hparse.
    + cbv beta iota zeta. destruct (is_error r) eqn:Herr.
      * do 3 step.
        split; [unfold sessionAttempt; rewrite Hparse, Herr; reflexivity|].
        world. repeat split; reflexivity.
      * do 3 step.
        split; [unfold sessionAttempt; rewrite Hparse, Herr; reflexivity|].
        world. repeat split; reflexivity.
    + do 2 step.
      split; [unfold sessionAttempt; rewrite Hparse; reflexivity|].
      world. repeat split; reflexivity.
  - do 2 step.
    split; [reflexivity|].
    world. repeat split; reflexivity.
  - split; [reflexivity|].
    world. repeat split; reflexivity.
Qed.

(** [createSession] writes no verdict of the classifier to the log. *)
Lemma createSession_logs_no_verdict (context : string)
  (options : ProviderSessionOptions) (w : World) (error : string) (verdict : bool) :
  In (LlmError error verdict) (logged (snd (createSession this context options w))) ->
  In (LlmError error verdict) (logged w).
Proof.
  change (post (createSession this context options) w
            (fun _ w' => In (LlmError error verdict) (logged w') ->
                         In (LlmError error verdict) (logged w))).
  assert (Hlog : forall e w0,
            (forall m b, e <> LlmError m b) ->
            (In (LlmError error verdict) (logged w0) ->
             In (LlmError error verdict) (logged w)) ->
            In (LlmError error verdict) (logged (logTo e w0)) ->
            In (LlmError error verdict) (logged w)).
  { intros e w0 He H0 H. unfold logTo in H. cbn [logged] in H.
    apply in_app_or in H. destruct H as [H|H]; [apply H0, H|].
    destruct H as [H|H]; [|destruct H].
    exfalso. apply (He error verdict). exact H. }
  assert (Hrep : forall a b c w0,
            (In (LlmError error verdict) (logged w0) ->
             In (LlmError error verdict) (logged w)) ->
            In (LlmError error verdict) (logged (reported a b c w0)) ->
            In (LlmError error verdict) (logged w)).
  { intros a b c w0 H0. unfold reported, reportStderr, warn, debug, log, ret.
    destruct (Js.truthy c && negb (isWarning c))%bool; [|destruct (Js.truthy c)];
      cbn [snd]; try exact H0; apply Hlog; try exact H0; discriminate. }
  assert (Hspawn : forall args input w0,
            (In (LlmError error verdict) (logged w0) ->
             In (LlmError error verdict) (logged w)) ->
            In (LlmError error verdict) (logged (afterSpawn this args input w0)) ->
            In (LlmError error verdict) (logged w)).
  { intros args input w0 H0 H. unfold afterSpawn in H. cbn [logged] in H.
    apply in_app_or in H. destruct H as [H|H]; [apply H0, H|].
    destruct (stdin _); [|destruct H].
    destruct (endingOf _ _ _) as [[[|[c|c|]|c]|] out t|e t| |e t];
      cbn [loggedBy In] in H; try (destruct H as [H|H]; [discriminate H|]);
      destruct H. }
  unfold createSession, logError, info, debug.
  do 6 step.
  set (w3 := logTo _ (logTo _ (afterDraw w))).
  assert (H3 : In (LlmError error verdict) (logged w3) ->
               In (LlmError error verdict) (logged w)).
  { unfold w3. intros H.
    apply Hlog in H; [exact H|discriminate|].
    intros H1. apply Hlog in H1; [exact H1|discriminate|].
    intros H2. exact H2. }
  destruct (childResult _ _ _) as [[out|e0]|d].
  - do 3 step. destruct (parseClaudeCLIResponse (stdout out)) as [r|e1].
    + cbv beta iota zeta. destruct (is_error r).
      * do 3 step. intros H. apply Hlog in H; [exact H|discriminate|].
        apply Hrep. apply Hlog; [discriminate|]. apply Hspawn, H3.
      * do 3 step. intros H. apply Hlog in H; [exact H|discriminate|].
        intros H1. apply Hlog in H1; [exact H1|discriminate|].
        apply Hrep. apply Hlog; [discriminate|]. apply Hspawn, H3.
    + do 2 step. intros H. apply Hlog in H; [exact H|discriminate|].
      apply Hrep. apply Hlog; [discriminate|]. apply Hspawn, H3.
  - do 2 step. intros H. apply Hlog in H; [exact H|discriminate|].
    apply Hspawn, H3.
  - apply Hspawn, H3.
Qed.

(** A call whose input was written at once does not end the process. *)
Lemma ending_written (delay : Z) (evs : list (Z * ChildEvent)) :
  forall out err error t, ending delay false evs out err <> StreamFailed error t.
Proof.
  induction evs as [|[t0 ev] rest IH]; intros out err error t; cbn [ending];
    [discriminate|].
  destruct (delay <=? t0); [discriminate|].
  destruct ev; try discriminate; apply IH.
Qed.

Lemma childResult_written (input : string) (child : ChildProcess) :
  stillWriting input = false ->
  exists c, childResult this input child = Settled c.
Proof.
  intros Hw. unfold childResult, childSettlement, endingOf. rewrite Hw.
  destruct (stdin child); [|eexists; reflexivity].
  pose proof (ending_written (timerDelay (timeout this)) (events child)
                EmptyString EmptyString) as Hn.
  destruct (ending _ false _ _ _) as [[[|[c|c|]|c]|] out t|e t| |e t];
    try (eexists; reflexivity).
  exfalso. apply (Hn e t). reflexivity.
Qed.

Lemma promptOutcome_written (sessionId : option string) (prompt : string)
  (options : ProviderPromptOptions) (n : nat) :
  stillWriting prompt = false ->
  exists c, promptOutcome this sessionId prompt options n = Settled c.
Proof.
  intros Hw. unfold promptOutcome, promptAttempt, rethrown.
  destruct (childResult_written prompt (promptChild this sessionId prompt options n) Hw)
    as [c ->].
  destruct c as [out|e]; [|eexists; reflexivity].
  destruct (parseClaudeCLIResponse (stdout out)) as [r|e]; [|eexists; reflexivity].
  destruct (is_error r); eexists; reflexivity.
Qed.

Lemma validateSession_spec (sessionId : string) (w : World) :
  post (validateSession this sessionId) w
    (fun c w' =>
       exists probe,
         promptOutcome this (Some sessionId) validationPrompt probeOptions
           (spawned w) = Settled probe /\
         c = Returned (validationOf probe (now w' - now w)) /\
         spawned w' = S (spawned w) /\ execed w' = execed w /\
         minted w' = minted w).
Proof.
  unfold validateSession, logError, info.
  do 3 step. apply post_bind_sendPrompt. intros w1 Hw.
  cbn [logTo spawned] in *.
  destruct (promptOutcome_written (Some sessionId) validationPrompt probeOptions
              (spawned w) eq_refl) as [probe Hprobe].
  rewrite Hprobe.
  destruct probe as [r|e].
  - do 3 step. eexists. split; [reflexivity|]. unfold validationOf. world.
    rewrite (prompt_spawned _ _ _ _ _ _ Hw), (prompt_execed _ _ _ _ _ _ Hw),
      (prompt_minted _ _ _ _ _ _ Hw).
    world. repeat split; reflexivity.
  - do 3 step. eexists. split; [reflexivity|]. unfold validationOf. world.
    rewrite (prompt_spawned _ _ _ _ _ _ Hw), (prompt_execed _ _ _ _ _ _ Hw),
      (prompt_minted _ _ _ _ _ _ Hw).
    world. repeat split; reflexivity.
Qed.

Lemma isAvailable_spec (w : World) :
  post (isAvailable this) w
    (fun c w' =>
       c = Returned (available this (execed w)) /\
       spawned w' = spawned w /\ minted w' = minted w /\
       killed w' = killed w /\ logged w' = logged w).
Proof.
  unfold isAvailable, available.
  do 2 step.
  destruct (fst (execAsync (execed w) _ _)) as [which|e].
  - cbv beta iota zeta.
    destruct (negb (Js.truthy (Js.trim (stdout which)))).
    + step. world. repeat split; reflexivity.
    + step. world.
      destruct (fst (execAsync (S (execed w)) _ _)) as [version|e].
      * step. world. repeat split; reflexivity.
      * step. world. repeat split; reflexivity.
  - step. world. repeat split; reflexivity.
Qed.

Lemma getHealth_spec (w : World) :
  post (getHealth this) w
    (fun c w' =>
       exists probe,
         promptOutcome this None healthPrompt probeOptions (spawned w) =
           Settled probe /\
         c = Returned
               (healthOf this (available this (execed w)) probe
                  (now w') (now w' - now w))).
Proof.
  unfold getHealth.
  destruct (promptOutcome_written None healthPrompt probeOptions (spawned w) eq_refl)
    as [probe Hprobe].
  do 2 step. apply post_bind.
  apply (post_weaken _ _ _ _ (isAvailable_spec w)).
  intros c w1 (-> & Hs & _). unfold healthOf.
  step. destruct (available this (execed w)); cbn [negb].
  - cbv beta iota zeta. apply post_bind_sendPrompt. intros w2 Hw.
    rewrite Hs, Hprobe.
    destruct probe as [r|e].
    + do 2 step. eexists. split; reflexivity.
    + do 2 step. eexists. split; reflexivity.
  - step. exists probe. split; [exact Hprobe|reflexivity].
Qed.

End MethodFacts.

(* ------------------------------------------------------------------ *)
(** ** Facts about strings *)

Lemma string_of_uint_numeric (d : Decimal.uint) :
  allChars numeric (NilEmpty.string_of_uint d) = true.
Proof. induction d; simpl; auto. Qed.

Lemma digitsOf_numeric (n : Z) : allChars numeric (Js.digitsOf n) = true.
Proof.
  assert (H : forall d, allChars numeric (NilZero.string_of_uint d) = true).
  { intros d. unfold NilZero.string_of_uint.
    destruct d; try reflexivity;
      match goal with
      | |- allChars numeric (NilEmpty.string_of_uint ?x) = true =>
          exact (string_of_uint_numeric x)
      end. }
  unfold Js.digitsOf, NilZero.string_of_int.
  destruct (Z.to_int n) as [d|d]; [apply H|].
  change (allChars numeric (String "-" (NilZero.string_of_uint d)))
    with (numeric "-" && allChars numeric (NilZero.string_of_uint d))%bool.
  rewrite H. reflexivity.
Qed.

(** Up to 2^53 a number is printed digit by digit. *)
Lemma numberToString_safe (n : Z) :
  Z.abs n <= 2 ^ 53 -> Js.numberToString n = Js.digitsOf n.
Proof.
  intros H. unfold Js.numberToString.
  apply Z.leb_le in H. rewrite H. reflexivity.
Qed.

Lemma numberToString_numeric (n : Z) :
  Z.abs n <= 2 ^ 53 -> allChars numeric (Js.numberToString n) = true.
Proof. intros H. rewrite (numberToString_safe n H). apply digitsOf_numeric. Qed.

Lemma allChars_impl (f g : ascii -> bool) (s : string) :
  (forall c, f c = true -> g c = true) ->
  allChars f s = true -> allChars g s = true.
Proof.
  intros Hfg. induction s as [|c t IH]; simpl; [reflexivity|].
  intros H. apply andb_prop in H. destruct H as [Hc Ht].
  rewrite (Hfg _ Hc), (IH Ht). reflexivity.
Qed.

Lemma allChars_app (f : ascii -> bool) (a b : string) :
  allChars f (a ++ b) = (allChars f a && allChars f b)%bool.
Proof.
  induction a as [|c t IH]; [reflexivity|].
  simpl. rewrite IH. apply andb_assoc.
Qed.

Lemma numeric_numberChar (c : ascii) : numeric c = true -> numberChar c = true.
Proof. intros H. unfold numberChar. rewrite H. reflexivity. Qed.

(** Whatever the number, its printed form is made of digits, a sign, a
    point, an exponent mark or the letters of "Infinity". *)
Lemma numberToString_chars (n : Z) :
  allChars numberChar (Js.numberToString n) = true.
Proof.
  assert (Hd : forall k, allChars numberChar (Js.digitsOf k) = true).
  { intros k. apply (allChars_impl numeric); [exact numeric_numberChar|].
    apply digitsOf_numeric. }
  assert (Hl : forall k, allChars numberChar (Js.largeToString k) = true).
  { intros k. unfold Js.largeToString.
    destruct (Js.nearestDouble k) as [x|]; [|reflexivity].
    destruct (Js.shortest 17 x (Js.decimalLength x - 1)) as [m p].
    destruct (Js.decimalLength (m * 10 ^ p) <=? 21); [apply Hd|].
    rewrite !allChars_app, Hd, andb_true_r.
    pose proof (Hd (Js.stripZeros 17 m)) as Hs.
    destruct (Js.digitsOf (Js.stripZeros 17 m)) as [|d [|d' rest]];
      [reflexivity| |].
    - simpl in Hs |- *. rewrite andb_true_r in Hs. now rewrite Hs.
    - cbn [allChars] in Hs. apply andb_prop in Hs. destruct Hs as [H1 H2].
      cbn [allChars append]. rewrite H1.
      change (allChars numberChar ("." ++ String d' rest))
        with (numberChar "." && allChars numberChar (String d' rest))%bool.
      rewrite H2. reflexivity. }
  unfold Js.numberToString.
  destruct (Z.abs n <=? 2 ^ 53); [apply Hd|].
  destruct (n <? 0); [|apply Hl].
  change (allChars numberChar ("-" ++ Js.largeToString (- n)))
    with (numberChar "-" && allChars numberChar (Js.largeToString (- n)))%bool.
  rewrite Hl. reflexivity.
Qed.

(** No printed number holds the letter c. *)
Lemma numberToString_no_c (n : Z) :
  allChars (differs "c") (Js.numberToString n) = true.
Proof.
  apply (allChars_impl numberChar); [|apply numberToString_chars].
  intros x. destruct x as [[|] [|] [|] [|] [|] [|] [|] [|]]; try reflexivity;
    intros H; discriminate H.
Qed.

Lemma lowerChar_numeric (c : ascii) : numeric c = true -> Js.lowerChar c = c.
Proof.
  destruct c as [[|] [|] [|] [|] [|] [|] [|] [|]]; try reflexivity;
    intros H; discriminate H.
Qed.

Lemma toLowerCase_numeric (s : string) :
  allChars numeric s = true -> Js.toLowerCase s = s.
Proof.
  induction s as [|c t IH]; simpl; [reflexivity|].
  intros H. apply andb_prop in H. destruct H as [Hc Ht].
  rewrite (lowerChar_numeric _ Hc), (IH Ht). reflexivity.
Qed.

Lemma toLowerCase_app (a b : string) :
  Js.toLowerCase (a ++ b) = Js.toLowerCase a ++ Js.toLowerCase b.
Proof. induction a as [|c t IH]; simpl; [reflexivity|]. now rewrite IH. Qed.

Lemma prefix_differs (c x : ascii) (m s : string) :
  differs c x = true -> String.prefix (String c m) (String x s) = false.
Proof.
  unfold differs. intros H. simpl.
  destruct (ascii_dec c x) as [->|_]; [|reflexivity].
  rewrite Ascii.eqb_refl in H. discriminate H.
Qed.

(** A needle whose first character does not occur in [a] is found in
    [a ++ b] only inside [b]. *)
Lemma includes_skip (c : ascii) (m a b : string) :
  allChars (differs c) a = true ->
  Js.includes (a ++ b) (String c m) = Js.includes b (String c m).
Proof.
  induction a as [|x t IH]; [reflexivity|].
  intros H. simpl in H. apply andb_prop in H. destruct H as [Hx Ht].
  change (Js.includes (String x t ++ b) (String c m))
    with (String.prefix (String c m) (String x (t ++ b)) ||
          Js.includes (t ++ b) (String c m))%bool.
  rewrite (prefix_differs _ _ _ _ Hx), (IH Ht). reflexivity.
Qed.

(** A needle that lacks the first character of [b] is a prefix of
    [s ++ b] only if it is a prefix of [s]. *)
Lemma prefix_app_differs (c : ascii) (b : string) :
  forall s n, allChars (differs c) n = true ->
  String.prefix n (s ++ String c b) = String.prefix n s.
Proof.
  induction s as [|x t IH]; intros [|y n] Hn; try reflexivity.
  - simpl in Hn. apply andb_prop in Hn. destruct Hn as [Hy _].
    simpl. destruct (ascii_dec y c) as [->|_]; [|reflexivity].
    unfold differs in Hy. rewrite Ascii.eqb_refl in Hy. discriminate Hy.
  - simpl in Hn. apply andb_prop in Hn. destruct Hn as [_ Hn].
    simpl. destruct (ascii_dec y x); [apply IH, Hn|reflexivity].
Qed.

Lemma includes_empty_needle (s : string) : Js.includes s EmptyString = true.
Proof. destruct s; reflexivity. Qed.

Lemma append_empty_r (s : string) : s ++ EmptyString = s.
Proof. induction s as [|c t IH]; simpl; [reflexivity|]. now rewrite IH. Qed.

Lemma append_assoc (a b c : string) : (a ++ b) ++ c = a ++ (b ++ c).
Proof. induction a as [|x a IH]; simpl; [reflexivity|]. now rewrite IH. Qed.

Lemma prefix_app_l (n : string) :
  forall a b, String.prefix n a = true -> String.prefix n (a ++ b) = true.
Proof.
  induction n as [|y n IH]; intros a b H.
  - destruct (a ++ b); reflexivity.
  - destruct a as [|x a]; [discriminate H|].
    simpl in *. destruct (ascii_dec y x); [apply IH, H|discriminate H].
Qed.

(** What is found in [a] is found in [a ++ b]. *)
Lemma includes_app_l (n b : string) :
  forall a, Js.includes a n = true -> Js.includes (a ++ b) n = true.
Proof.
  induction a as [|x a IH]; intros H.
  - simpl in H. rewrite orb_false_r in H.
    destruct n; [apply includes_empty_needle|discriminate H].
  - change (Js.includes (String x a) n)
      with (String.prefix n (String x a) || Js.includes a n)%bool in H.
    change (Js.includes (String x a ++ b) n)
      with (String.prefix n (String x a ++ b) || Js.includes (a ++ b) n)%bool.
    apply orb_true_iff in H. apply orb_true_iff. destruct H as [H|H].
    + left. apply prefix_app_l, H.
    + right. apply IH, H.
Qed.

(** Such a needle cannot straddle the seam of [a ++ b]. *)
Lemma includes_app_differs (c : ascii) (b n : string) :
  allChars (differs c) n = true ->
  forall a,
  Js.includes (a ++ String c b) n =
  (Js.includes a n || Js.includes (String c b) n)%bool.
Proof.
  intros Hn. induction a as [|x t IH].
  - destruct n; [|reflexivity].
    now rewrite !includes_empty_needle.
  - change (Js.includes (String x t ++ String c b) n)
      with (String.prefix n (String x t ++ String c b) ||
            Js.includes (t ++ String c b) n)%bool.
    change (Js.includes (String x t) n)
      with (String.prefix n (String x t) || Js.includes t n)%bool.
    rewrite (prefix_app_differs c b (String x t) n Hn), IH.
    now rewrite orb_assoc.
Qed.

(* ------------------------------------------------------------------ *)
(** ** Error classification *)

Lemma isRetryableError_markers (msg : string) :
  isRetryableError (JsError msg) =
  existsb (Js.includes (Js.toLowerCase msg)) retryableMarkers.
Proof.
  unfold isRetryableError, retryableMarkers. cbn [existsb].
  rewrite orb_false_r, !orb_assoc. reflexivity.
Qed.

(** The part of the classification that holds for every message: one
    marker in the lowered message makes the error retryable. *)
Lemma isRetryableError_marker (msg marker : string) :
  In marker retryableMarkers ->
  Js.includes (Js.toLowerCase msg) marker = true ->
  isRetryableError (JsError msg) = true.
Proof.
  intros Hin Hinc. rewrite isRetryableError_markers.
  apply existsb_exists. exists marker. split; assumption.
Qed.

(** A child that exits with code 1 makes a retryable error, whatever it
    was fed and whatever it printed. *)
Lemma exit_code_1_is_retryable (input stderr : string) :
  isRetryableError (JsError (exitMessage (Some 1) input stderr)) = true.
Proof.
  apply (isRetryableError_marker _ "exit code 1").
  - unfold retryableMarkers. cbn [In]. tauto.
  - unfold exitMessage. cbn [Js.nullableToString].
    change (Js.numberToString 1) with "1".
    change ("Claude CLI command failed with exit code " ++ "1")
      with "Claude CLI command failed with exit code 1".
    destruct (10000 <? Js.strlen input);
      rewrite !append_assoc, toLowerCase_app;
      apply includes_app_l; reflexivity.
Qed.

(** No marker starts inside the fixed words of the deadline message
    and ends after them. *)
Lemma includes_after_timeout_words (rest marker : string) :
  In marker retryableMarkers ->
  Js.includes ("claude cli command timed out after " ++ rest) marker =
  Js.includes rest marker.
Proof.
  intros H. unfold retryableMarkers in H.
  repeat (destruct H as [<-|H]; [simpl; reflexivity|]).
  destruct H.
Qed.

(** Digits between two texts: when no marker lies in the text before or
    reaches out of it, none lies in the text after, which opens with the
    letter m, and the digits spell no status code, the whole holds no
    marker. *)
Lemma markers_around_digits (before after ds : string) :
  allChars numeric ds = true ->
  (forall marker rest, In marker retryableMarkers ->
     Js.includes (before ++ rest) marker = Js.includes rest marker) ->
  existsb (Js.includes (String "m" after)) retryableMarkers = false ->
  existsb (Js.includes ds)
    (map Js.numberToString
       [HTTP_TOO_MANY_REQUESTS; HTTP_BAD_GATEWAY; HTTP_SERVICE_UNAVAILABLE;
        HTTP_GATEWAY_TIMEOUT]) = false ->
  existsb (Js.includes (before ++ ds ++ String "m" after)) retryableMarkers = false.
Proof.
  intros Hnum Hbefore Hafter Hcodes.
  cbn [map existsb] in Hcodes.
  apply orb_false_elim in Hcodes. destruct Hcodes as [H429 Hcodes].
  apply orb_false_elim in Hcodes. destruct Hcodes as [H502 Hcodes].
  apply orb_false_elim in Hcodes. destruct Hcodes as [H503 Hcodes].
  apply orb_false_elim in Hcodes. destruct Hcodes as [H504 _].
  assert (Hskip : forall c m, numeric c = false ->
            Js.includes (ds ++ String "m" after) (String c m) =
            Js.includes (String "m" after) (String c m)).
  { intros c m Hc. apply includes_skip.
    apply (allChars_impl numeric); [|exact Hnum].
    intros x Hx. unfold differs.
    destruct (Ascii.eqb x c) eqn:E; [|reflexivity].
    apply Ascii.eqb_eq in E. congruence. }
  assert (Hseam : forall n, allChars (differs "m") n = true ->
            Js.includes (ds ++ String "m" after) n =
            (Js.includes ds n || Js.includes (String "m" after) n)%bool).
  { intros n Hn. apply includes_app_differs, Hn. }
  assert (Hafter' : forall marker, In marker retryableMarkers ->
            Js.includes (String "m" after) marker = false).
  { intros marker Hin.
    destruct (Js.includes (String "m" after) marker) eqn:E; [|reflexivity].
    assert (Hex : existsb (Js.includes (String "m" after)) retryableMarkers = true)
      by (apply existsb_exists; exists marker; split; assumption).
    congruence. }
  apply not_true_is_false. intros Hex.
  apply existsb_exists in Hex. destruct Hex as (marker & Hin & Hinc).
  rewrite (Hbefore _ _ Hin) in Hinc.
  pose proof (Hafter' marker Hin) as Ha.
  unfold retryableMarkers in Hin.
  repeat (destruct Hin as [<-|Hin];
          [first [ rewrite Hskip in Hinc by reflexivity; congruence
                 | rewrite Hseam in Hinc by reflexivity;
                   rewrite ?H429, ?H502, ?H503, ?H504, Ha in Hinc;
                   discriminate Hinc ]|]).
  destruct Hin.
Qed.

(** The message of the adapter's own deadline is not retryable, unless
    the digits of the configured timeout happen to spell a status code.
    Stated for the timeouts that are printed digit by digit. *)
Lemma timeoutMessage_not_retryable (this : ClaudeCLIAdapter) :
  Z.abs (timeout this) <= 2 ^ 53 ->
  spellsStatusCode (timeout this) = false ->
  isRetryableError (JsError (timeoutMessage this)) = false.
Proof.
  intros Hsafe Hcodes.
  rewrite isRetryableError_markers. unfold timeoutMessage.
  rewrite !toLowerCase_app.
  pose proof (numberToString_numeric (timeout this) Hsafe) as Hnum.
  rewrite (toLowerCase_numeric _ Hnum).
  apply (markers_around_digits "claude cli command timed out after " "s");
    [exact Hnum| |reflexivity|exact Hcodes].
  intros marker rest Hin. apply includes_after_timeout_words, Hin.
Qed.


(* ------------------------------------------------------------------ *)
(** ** Facts about [enhanceError] *)

Lemma prefix_app_app (a b c : string) :
  String.prefix (a ++ b) (a ++ c) = String.prefix b c.
Proof.
  induction a as [|x t IH]; simpl; [reflexivity|].
  destruct (ascii_dec x x); [exact IH|congruence].
Qed.

(** Whatever it is given, [enhanceError] returns an [Error] whose message
    opens with the context and a colon. *)
Lemma enhanceError_context (this : ClaudeCLIAdapter) (error : JsValue)
  (context : string) :
  exists msg,
    enhanceError this error context = JsError msg /\
    Js.startsWith msg (context ++ ": ") = true.
Proof.
  unfold enhanceError, Js.startsWith.
  repeat match goal with
         | |- context [if ?b then _ else _] => destruct b
         end;
    eexists; (split; [reflexivity|]);
    rewrite prefix_app_app; try reflexivity.
  simpl. destruct (messageOrString error); reflexivity.
Qed.

(** An authentication failure that no earlier pattern of [enhanceError]
    claims is rewritten to the authentication message. *)
Lemma enhanceError_authentication (this : ClaudeCLIAdapter) (message context : string) :
  Js.includes message "command not found" = false ->
  (Js.includes message "ETIMEDOUT" || Js.includes message "timed out")%bool = false ->
  (Js.includes message "rate limit" ||
   Js.includes message (Js.numberToString HTTP_TOO_MANY_REQUESTS))%bool = false ->
  authenticationFailure message = true ->
  enhanceError this (JsError message) context =
  JsError (context ++
    ": Claude CLI authentication failed. Please run: claude auth login").
Proof.
  unfold enhanceError, authenticationFailure. cbn [messageOrString].
  intros -> -> -> ->. reflexivity.
Qed.

(** The deadline message of [spawnWithStdin] is rewritten by the second
    pattern of [enhanceError], for every configured timeout. *)
Lemma enhanceError_timeout (this : ClaudeCLIAdapter) (context : string) :
  enhanceError this (JsError (timeoutMessage this)) context =
  JsError (context ++ ": Claude CLI timed out after " ++
           Js.numberToString (timeout this) ++
           "ms. The request may be too complex or the service may be slow.").
Proof.
  unfold enhanceError, timeoutMessage. cbn [messageOrString].
  pose proof (numberToString_no_c (timeout this)) as Hnum.
  set (ds := Js.numberToString (timeout this)) in *.
  assert (H1 : Js.includes ("Claude CLI command timed out after " ++ ds ++ "ms")
                 "command not found" = false).
  { transitivity (Js.includes (ds ++ "ms") "command not found").
    - generalize (ds ++ "ms"). intros rest. simpl. reflexivity.
    - rewrite includes_skip; [reflexivity|exact Hnum]. }
  assert (H2 : Js.includes ("Claude CLI command timed out after " ++ ds ++ "ms")
                 "timed out" = true).
  { generalize (ds ++ "ms"). intros rest. simpl. reflexivity. }
  rewrite H1, H2, orb_true_r. reflexivity.
Qed.

(* ------------------------------------------------------------------ *)
(** ** How the child of a call ends *)

Lemma timerDelay_bounds (ms : Z) : 1 <= timerDelay ms <= 2147483647.
Proof.
  unfold timerDelay.
  destruct (1 <=? ms) eqn:H1; destruct (ms <=? 2147483647) eqn:H2; simpl; lia.
Qed.


(** Output events delivered before the deadline are collected in order,
    and the ending is that of the events after them. *)
Lemma ending_chunks (delay : Z) (writing : bool) (chunks : list (Z * ChildEvent)) :
  forall (tail : list (Z * ChildEvent)) (out err : string),
  forallb (writesBefore delay) chunks = true ->
  ending delay writing (chunks ++ tail)%list out err =
  ending delay writing tail (out ++ stdoutOf chunks) (err ++ stderrOf chunks).
Proof.
  induction chunks as [|[t0 ev0] chunks IH]; intros tail out err Hc.
  - cbn [app stdoutOf stderrOf]. rewrite !append_empty_r. reflexivity.
  - cbn [forallb] in Hc. apply andb_true_iff in Hc. destruct Hc as [H0 Hc].
    unfold writesBefore in H0. cbn [fst snd] in H0.
    apply andb_true_iff in H0. destruct H0 as [Hout Hlt].
    apply Z.ltb_lt in Hlt.
    assert (Hd : (delay <=? t0) = false) by (apply Z.leb_gt; exact Hlt).
    change (((t0, ev0) :: chunks) ++ tail)%list
      with ((t0, ev0) :: (chunks ++ tail))%list.
    cbn [ending]. rewrite Hd.
    destruct ev0 as [data|data|code|error|error]; try discriminate Hout;
      cbn [stdoutOf stderrOf]; rewrite (IH tail _ _ Hc);
      rewrite <- ?append_assoc; reflexivity.
Qed.



(* ------------------------------------------------------------------ *)
(** ** sendPrompt: when it rejects, when the process dies, what it
    resolves to *)

Section PromptContract.

Context {schema : ResponseSchema} {defaults : Defaults} {host : Host}.
Variable this : ClaudeCLIAdapter.

(** A call does not both fail and lose its stdin. *)
Lemma invocationFails_or_breaks (input : string) (child : ChildProcess)
  (error : JsValue) :
  invocationFails this input child -> stdinBreaks this input child error -> False.
Proof. intros Hf [Hin [t Hb]]. destruct Hf; congruence. Qed.

(** The [try] block of [sendPrompt] throws exactly on an invocation
    failure and is cut short exactly when the write to stdin fails;
    otherwise it returns the response built from the parse. *)
Lemma promptAttempt_cases (options : ProviderPromptOptions) (input : string)
  (child : ChildProcess) :
  (invocationFails this input child /\
   exists e, promptAttempt options (childResult this input child) = Threw e) \/
  (exists e, stdinBreaks this input child e /\
             promptAttempt options (childResult this input child) = Died e) \/
  (~ invocationFails this input child /\
   (forall e, ~ stdinBreaks this input child e) /\
   exists out t r,
     stdin child = true /\
     endingOf this input child = Exited (Some 0) out t /\
     parseClaudeCLIResponse (stdout out) = Returned r /\
     is_error r = false /\
     promptAttempt options (childResult this input child) =
       Returned (responseFor options r)).
Proof.
  unfold childResult, childSettlement, promptAttempt, stdinBreaks.
  destruct (stdin child) eqn:Hin.
  2:{ left. split; [apply stdin_not_accessible, Hin|]. eexists; reflexivity. }
  destruct (endingOf this input child) as [code out t|error t| |error t] eqn:He.
  4:{ right; left. exists error.
      split; [split; [reflexivity|exists t; reflexivity]|reflexivity]. }
  3:{ left. split; [apply deadline_exceeded; assumption|]. eexists; reflexivity. }
  2:{ left. split; [eapply cannot_be_started; eassumption|]. eexists; reflexivity. }
  assert (Hcode : code = Some 0 \/ code <> Some 0).
  { destruct code as [z|]; [|right; discriminate].
    destruct (Z.eq_dec z 0) as [->|Hz]; [left; reflexivity|].
    right. intros [= ->]. apply Hz. reflexivity. }
  destruct Hcode as [->|Hcode].
  - cbn [settlementOf fst].
    destruct (parseClaudeCLIResponse (stdout out)) as [r|error] eqn:Hp.
    + destruct (is_error r) eqn:Herr.
      * left. split; [eapply response_is_error; eassumption|].
        eexists; reflexivity.
      * right; right. split; [|split].
        -- intros Hf.
           destruct Hf as [c o t' _ H Hc|e t' _ H|H|_ H|o t' e _ H Hp'|o t' r' _ H Hp' Herr'];
             try congruence; rewrite He in H; injection H as <- <- <-;
             congruence.
        -- intros e [_ [t' Hb]]. discriminate Hb.
        -- exists out, t, r. repeat split; try assumption; reflexivity.
    + left. split; [eapply output_not_parsed; eassumption|].
      eexists; reflexivity.
  - left. split; [eapply exits_non_zero; eassumption|].
    destruct code as [[|[c|c|]|c]|]; try (eexists; reflexivity).
    exfalso. apply Hcode. reflexivity.
Qed.

(** C5, where the code departs from it. [spawnWithStdin] writes the
    prompt to [child.stdin] and gives the stream no ['error'] listener.
    When the prompt is too long to be written at once and the write
    fails before the child closed, failed or ran out of time (a CLI that
    goes away without reading its input), the error is thrown where
    nothing catches it and the Node process ends: [sendPrompt] neither
    rejects with a descriptive error nor resolves, and none of the
    failures of its contract has occurred. *)
Theorem sendPrompt_dies_when_stdin_breaks (sessionId : option string)
  (prompt : string) (options : ProviderPromptOptions) (w : World)
  (chunks rest : list (Z * ChildEvent)) (t : Z) (error : JsValue) :
  let child := promptChild this sessionId prompt options (spawned w) in
  stdin child = true ->
  writtenAtOnce < Js.strlen prompt ->
  events child = (chunks ++ (t, StdinError error) :: rest)%list ->
  forallb (writesBefore (timerDelay (timeout this))) chunks = true ->
  t < timerDelay (timeout this) ->
  fst (sendPrompt this sessionId prompt options w) = Died error /\
  (forall msg, fst (sendPrompt this sessionId prompt options w) <> Threw (JsError msg)) /\
  (forall response, fst (sendPrompt this sessionId prompt options w) <> Returned response) /\
  ~ invocationFails this prompt child.
Proof.
  intros child Hin Hlong Hev Hc Ht.
  assert (Hw : stillWriting prompt = true) by (apply Z.ltb_lt; exact Hlong).
  assert (Hd : (timerDelay (timeout this) <=? t) = false)
    by (apply Z.leb_gt; exact Ht).
  assert (Hend : endingOf this prompt child = StreamFailed error t).
  { unfold endingOf. rewrite Hev, Hw, (ending_chunks _ _ chunks _ _ _ Hc).
    cbn [ending]. rewrite Hd. reflexivity. }
  assert (Hb : stdinBreaks this prompt child error)
    by (split; [exact Hin|exists t; exact Hend]).
  destruct (sendPrompt_spec this sessionId prompt options w) as [Hfst _].
  assert (Hdied : fst (sendPrompt this sessionId prompt options w) = Died error).
  { rewrite Hfst. unfold promptOutcome, childResult, childSettlement.
    fold child. rewrite Hin, Hend. reflexivity. }
  split; [exact Hdied|]. rewrite Hdied.
  split; [intros msg H; discriminate H|].
  split; [intros response H; discriminate H|].
  intros Hf. exact (invocationFails_or_breaks prompt child error Hf Hb).
Qed.

(** X23. How a [sendPrompt] call goes is settled by the child process
    of the call. It rejects, with an error whose message opens with the
    words "Failed to send prompt to Claude CLI", exactly when the
    invocation fails: the CLI exits with a code other than zero, it
    cannot be started, its stdin cannot be accessed, the deadline
    passes, the output cannot be parsed, or the parsed response carries
    [is_error]. The Node process dies of the error of the stdin stream
    exactly when the write to stdin fails while the promise is pending.
    In every other case the call resolves to a value holding the
    extracted content, the token usage, the metadata and the stop reason
    "end_turn". *)
Theorem sendPrompt_rejects_dies_or_resolves
  (sessionId : option string) (prompt : string) (options : ProviderPromptOptions)
  (w : World) :
  let child := promptChild this sessionId prompt options (spawned w) in
  (invocationFails this prompt child <->
   exists msg,
     fst (sendPrompt this sessionId prompt options w) = Threw (JsError msg) /\
     Js.startsWith msg "Failed to send prompt to Claude CLI: " = true) /\
  (forall error,
     stdinBreaks this prompt child error <->
     fst (sendPrompt this sessionId prompt options w) = Died error) /\
  (~ invocationFails this prompt child ->
   (forall error, ~ stdinBreaks this prompt child error) ->
   exists out t claudeResponse,
     endingOf this prompt child = Exited (Some 0) out t /\
     parseClaudeCLIResponse (stdout out) = Returned claudeResponse /\
     is_error claudeResponse = false /\
     fst (sendPrompt this sessionId prompt options w) =
       Returned (responseFor options claudeResponse)).
Proof.
  intros child.
  destruct (sendPrompt_spec this sessionId prompt options w) as [Hfst _].
  rewrite Hfst. unfold promptOutcome. fold child.
  destruct (promptAttempt_cases options prompt child)
    as [[Hf [e He]]|[[e [Hb He]]|[Hnf [Hnb (out & t & r & Hin & Hend & Hp & Herr & Hret)]]]].
  - rewrite He. cbn [rethrown]. split; [|split].
    + split; [intros _|intros _; exact Hf].
      destruct (enhanceError_context this e "Failed to send prompt to Claude CLI")
        as (msg & -> & Hmsg).
      exists msg. split; [reflexivity|exact Hmsg].
    + intros error. split; [intros Hb|intros H; discriminate H].
      exfalso. exact (invocationFails_or_breaks prompt child error Hf Hb).
    + intros Hnf. contradiction.
  - rewrite He. cbn [rethrown]. split; [|split].
    + split; [intros Hf|intros (msg & Hmsg & _); discriminate Hmsg].
      exfalso. exact (invocationFails_or_breaks prompt child e Hf Hb).
    + intros error. split.
      * intros [_ [t1 H1]]. destruct Hb as [_ [t2 H2]].
        rewrite H1 in H2. injection H2 as -> _. reflexivity.
      * intros [= <-]. exact Hb.
    + intros _ Hnb. exfalso. exact (Hnb e Hb).
  - rewrite Hret. cbn [rethrown]. split; [|split].
    + split; [intros Hf; contradiction|].
      intros (msg & Hmsg & _). discriminate Hmsg.
    + intros error. split; [intros Hb; exfalso; exact (Hnb error Hb)|].
      intros H; discriminate H.
    + intros _ _. exists out, t, r. repeat split; assumption.
Qed.

End PromptContract.

(* ------------------------------------------------------------------ *)
(** ** The deadline of a provider call *)

Section Deadline.

Context {schema : ResponseSchema} {defaults : Defaults} {host : Host}.
Variable this : ClaudeCLIAdapter.



End Deadline.

(* ------------------------------------------------------------------ *)
(** ** Sessions and health *)

Section Sessions.

Context {schema : ResponseSchema} {defaults : Defaults} {host : Host}.
Variable this : ClaudeCLIAdapter.

(** [sendPrompt] completes the same way in two worlds that saw the same
    number of child processes: the log and the clock do not matter. *)
Lemma sendPrompt_completion (sessionId : option string) (prompt : string)
  (options : ProviderPromptOptions) (w : World) :
  fst (sendPrompt this sessionId prompt options w) =
  promptOutcome this sessionId prompt options (spawned w).
Proof. apply (sendPrompt_spec this sessionId prompt options w). Qed.

(** [sendPrompt] only ever rejects with an [Error]. *)
Lemma sendPrompt_throws_error (sessionId : option string) (prompt : string)
  (options : ProviderPromptOptions) (w : World) (e : JsValue) :
  fst (sendPrompt this sessionId prompt options w) = Threw e ->
  exists msg, e = JsError msg.
Proof.
  rewrite sendPrompt_completion. unfold promptOutcome, rethrown.
  destruct (promptAttempt _ _) as [[r|e0]|d]; [discriminate| |discriminate].
  intros [= <-].
  destruct (enhanceError_context this e0 "Failed to send prompt to Claude CLI")
    as (msg & Hmsg & _).
  exists msg. exact Hmsg.
Qed.

(** C4. When the probe prompt of [validateSession] succeeds, the answer
    is [valid = true] exactly when the content of the probe response,
    lowered, contains "ok", and [valid = false] otherwise; no error is
    reported. *)
Theorem validateSession_valid_iff_ok (sessionId : string) (w : World)
  (testResponse : ProviderResponse) :
  fst (sendPrompt this (Some sessionId) validationPrompt probeOptions w) =
    Returned testResponse ->
  exists v,
    fst (validateSession this sessionId w) = Returned v /\
    valid v = Js.includes (Js.toLowerCase (content testResponse)) "ok" /\
    sv_error v = None.
Proof.
  rewrite sendPrompt_completion. intros Hprobe.
  destruct (validateSession_spec this sessionId w) as (probe & Hp & Hfst & _).
  rewrite Hprobe in Hp. injection Hp as <-.
  rewrite Hfst. eexists. split; [reflexivity|]. split; reflexivity.
Qed.

(** C7. [validateSession] never rejects. When the probe call throws, it
    resolves to a record with [valid = false] whose error field is the
    message of the failure. *)
Theorem validateSession_never_rejects (sessionId : string) (w : World) :
  exists v,
    fst (validateSession this sessionId w) = Returned v /\
    (forall e,
       fst (sendPrompt this (Some sessionId) validationPrompt probeOptions w) =
         Threw e ->
       exists msg,
         e = JsError msg /\ valid v = false /\ sv_error v = Some msg /\
         responseTime v <> None).
Proof.
  destruct (validateSession_spec this sessionId w) as (probe & Hp & Hfst & _).
  rewrite Hfst. eexists. split; [reflexivity|].
  intros e He.
  destruct (sendPrompt_throws_error _ _ _ _ _ He) as [msg ->].
  rewrite sendPrompt_completion, Hp in He. injection He as ->.
  exists msg. cbn. repeat split. discriminate.
Qed.

(** [isAvailable] never rejects. *)
Lemma isAvailable_completion (w : World) :
  fst (isAvailable this w) = Returned (available this (execed w)).
Proof. apply (isAvailable_spec this w). Qed.

(** C8, as the code has it. [getHealth] never rejects. It reports
    [healthy = true] exactly when [isAvailable] answers true and the test
    prompt succeeds, whatever the content of the response, of which the
    first hundred characters are kept in the details. On any failure it
    resolves to [healthy = false] with an error description. In every
    case [responseTimeMs] is the time between the call and the answer. *)
Theorem getHealth_healthy_iff_probe_succeeds (w : World) :
  exists h,
    fst (getHealth this w) = Returned h /\
    responseTimeMs h = now (snd (getHealth this w)) - now w /\
    match fst (isAvailable this w),
          fst (sendPrompt this None healthPrompt probeOptions w) with
    | Settled (Returned true), Settled (Returned testResponse) =>
        healthy h = true /\ ph_error h = None /\
        details h = DetailsTested (binary this)
                      (Js.substring0 100 (content testResponse))
    | Settled (Returned true), Settled (Threw e) =>
        healthy h = false /\ ph_error h = Some (messageOrUnknown e)
    | _, _ =>
        healthy h = false /\
        ph_error h = Some "Claude CLI not found or not responding"
    end.
Proof.
  destruct (getHealth_spec this w) as (probe & Hp & Hspec).
  rewrite Hspec, isAvailable_completion, sendPrompt_completion, Hp.
  eexists. split; [reflexivity|].
  unfold healthOf.
  destruct (available this (execed w)); cbn [negb].
  - destruct probe; cbn; repeat split.
  - cbn. repeat split.
Qed.

(** C9. [destroySession] starts no child process, runs no command,
    draws no identifier, kills nothing and does not touch the clock: it
    resolves and leaves two entries in the log. *)
Theorem destroySession_only_logs (sessionId : string) (w : World) :
  destroySession this sessionId w =
  (Returned tt,
   {| now := now w; spawned := spawned w; execed := execed w;
      minted := minted w; killed := killed w;
      logged := logged w ++
        [ LogDebug "Destroying Claude CLI session" [("sessionId", sessionId)];
          LogInfo "Claude CLI session destroyed"
            [("sessionId", sessionId);
             ("note", "Session will expire naturally in Claude CLI")] ] |}).
Proof.
  unfold destroySession, debug, info, bind, log, logTo.
  cbn [now spawned execed minted killed logged].
  rewrite <- app_assoc. reflexivity.
Qed.

(** [createSession] completes as [sessionOutcome] says. *)
Lemma createSession_completion (context : string) (options : ProviderSessionOptions)
  (w : World) :
  fst (createSession this context options w) =
    sessionOutcome this context options (randomUUID (minted w)) (spawned w) /\
  minted (snd (createSession this context options w)) = S (minted w) /\
  spawned (snd (createSession this context options w)) = S (spawned w).
Proof.
  destruct (createSession_spec this context options w) as (H1 & H2 & H3 & _).
  auto.
Qed.

(** A successful [createSession] returns the [session_id] of a parsed
    response that is not an error, printed by a child that exited with
    code 0. *)
Lemma sessionOutcome_returned (context : string) (options : ProviderSessionOptions)
  (uuid : string) (n : nat) (id : string) :
  sessionOutcome this context options uuid n = Returned id ->
  exists out t claudeResponse,
    p_settled (runChild this (sessionInput context options)
                 (sessionChild this context options uuid n)) =
      Some (Returned out, t) /\
    parseClaudeCLIResponse (stdout out) = Returned claudeResponse /\
    is_error claudeResponse = false /\
    id = session_id claudeResponse.
Proof.
  unfold sessionOutcome, rethrown, sessionAttempt, childResult.
  destruct (childSettlement this (sessionInput context options)
              (sessionChild this context options uuid n))
    as [[[out|e]|d] t] eqn:Hs; cbn [fst]; [|discriminate|discriminate].
  apply runChild_settled in Hs.
  destruct (parseClaudeCLIResponse (stdout out)) as [r|e] eqn:Hp; [|discriminate].
  destruct (is_error r) eqn:Herr; [discriminate|].
  intros [= <-]. exists out, t, r. repeat split; assumption.
Qed.

(** C10. On success [createSession] returns the [session_id] field of
    the parsed CLI response. The UUID drawn for the call is only passed
    to the CLI after [--session-id]; the identifier handed to the caller
    equals it exactly when the CLI reports it back. *)
Theorem createSession_returns_reported_id (context : string)
  (options : ProviderSessionOptions) (w : World) (id : string) :
  fst (createSession this context options w) = Returned id ->
  let uuid := randomUUID (minted w) in
  let child :=
    spawn (spawned w) (binary this)
      ("--output-format" :: "json" :: "--session-id" :: uuid ::
       match so_model options with
       | Some m => if Js.truthy m then ["--model"; m] else []
       | None => []
       end)
      (sessionInput context options) in
  exists out t claudeResponse,
    p_settled (runChild this (sessionInput context options) child) =
      Some (Returned out, t) /\
    parseClaudeCLIResponse (stdout out) = Returned claudeResponse /\
    is_error claudeResponse = false /\
    id = session_id claudeResponse /\
    (id = uuid <-> session_id claudeResponse = uuid).
Proof.
  intros Hc uuid child.
  destruct (createSession_completion context options w) as (Hfst & _).
  rewrite Hfst in Hc.
  destruct (sessionOutcome_returned _ _ _ _ _ Hc)
    as (out & t & r & Hout & Hp & He & ->).
  exists out, t, r. repeat split; try assumption; auto.
Qed.

(** C3, as the code has it. Two consecutive successful [createSession]
    calls with the same context draw two UUIDs and pass each to the CLI
    after [--session-id]; they return the identifiers the CLI reports.
    The two identifiers differ whenever the CLI honours [--session-id]
    and the two UUIDs differ. *)
Theorem createSession_fresh_when_cli_honours_id (context : string)
  (options : ProviderSessionOptions) (w w1 w2 : World) (id1 id2 : string) :
  createSession this context options w = (Returned id1, w1) ->
  createSession this context options w1 = (Returned id2, w2) ->
  honoursSessionId this ->
  randomUUID (minted w) <> randomUUID (S (minted w)) ->
  id1 = randomUUID (minted w) /\ id2 = randomUUID (S (minted w)) /\ id1 <> id2.
Proof.
  intros H1 H2 Hcli Huuid.
  destruct (createSession_completion context options w) as (Hf1 & Hm1 & _).
  destruct (createSession_completion context options w1) as (Hf2 & _ & _).
  rewrite H1 in Hf1, Hm1. rewrite H2 in Hf2. cbn [fst snd] in *.
  rewrite Hm1 in Hf2.
  symmetry in Hf1, Hf2.
  destruct (sessionOutcome_returned _ _ _ _ _ Hf1)
    as (o1 & t1 & r1 & Ho1 & Hp1 & He1 & ->).
  destruct (sessionOutcome_returned _ _ _ _ _ Hf2)
    as (o2 & t2 & r2 & Ho2 & Hp2 & He2 & ->).
  rewrite (Hcli _ _ _ _ _ _ _ Ho1 Hp1 He1), (Hcli _ _ _ _ _ _ _ Ho2 Hp2 He2).
  auto.
Qed.

End Sessions.

(* ------------------------------------------------------------------ *)
(** ** Retryable and fatal errors *)

(** C1, where the code departs from it. The error with which
    [spawnWithStdin] rejects when its own timer runs, for a timeout of
    30000 ms, reads "Claude CLI command timed out after 30000ms"; the
    classifier looks for "timeout", does not find it, and answers false,
    before and after [enhanceError] rewrote the message. *)
Theorem own_timeout_error_is_not_retryable :
  let this := {| binary := "claude"; timeout := 30000; maxBuffer := 10485760 |} in
  let hung := {| stdin := true; events := [] |} in
  p_settled (runChild this "Say OK" hung) =
    Some (Threw (JsError "Claude CLI command timed out after 30000ms"), 30000) /\
  isRetryableError (JsError "Claude CLI command timed out after 30000ms") = false /\
  enhanceError this (JsError "Claude CLI command timed out after 30000ms")
    "Failed to send prompt to Claude CLI" =
    JsError "Failed to send prompt to Claude CLI: Claude CLI timed out after 30000ms. The request may be too complex or the service may be slow." /\
  isRetryableError
    (enhanceError this (JsError "Claude CLI command timed out after 30000ms")
       "Failed to send prompt to Claude CLI") = false.
Proof.
  intros this hung. split; [reflexivity|]. split.
  - apply (timeoutMessage_not_retryable this); [vm_compute; discriminate|reflexivity].
  - split; vm_compute; reflexivity.
Qed.

(** C2. An error whose message shows an authentication failure, an
    invalid model or a response that is too large, and whose lowered
    message holds none of the retryable markers, is not retryable. *)
Theorem fatal_errors_are_not_retryable (message : string) :
  (authenticationFailure message || invalidModel message ||
   responseTooLarge message)%bool = true ->
  existsb (Js.includes (Js.toLowerCase message)) retryableMarkers = false ->
  isRetryableError (JsError message) = false.
Proof.
  intros _ Hnone. rewrite isRetryableError_markers. exact Hnone.
Qed.

Lemma fatal_errors_are_not_retryable_witness :
  let message := "Request failed with status 401: unauthorized" in
  (authenticationFailure message || invalidModel message ||
   responseTooLarge message)%bool = true /\
  existsb (Js.includes (Js.toLowerCase message)) retryableMarkers = false /\
  isRetryableError (JsError message) = false.
Proof.
  intros message.
  split; [reflexivity|]. split; [reflexivity|].
  apply (fatal_errors_are_not_retryable message); reflexivity.
Defined.

(** What [enhanceError] makes of the three kinds of fatal error is not
    retryable either, for the two contexts the adapter uses. *)
Lemma enhanced_fatal_errors_are_not_retryable (this : ClaudeCLIAdapter)
  (context : string) :
  context = "Failed to send prompt to Claude CLI" \/
  context = "Failed to create Claude CLI session" ->
  isRetryableError
    (JsError (context ++
      ": Claude CLI authentication failed. Please run: claude auth login")) = false /\
  isRetryableError
    (JsError (context ++ ": Invalid model specified. Supported models: " ++
              Js.join ", " supportedModels)) = false.
Proof. intros [->| ->]; split; vm_compute; reflexivity. Qed.

(* ------------------------------------------------------------------ *)
(** ** Concrete runs *)

Module Runs.

Import Scenario.
#[local] Existing Instance plainSchema.
#[local] Existing Instance sampleDefaults.

Lemma validateSession_valid_iff_ok_witness :
  fst (sendPrompt (host := honouringHost) adapter (Some "uuid-0") validationPrompt
         probeOptions world0) = Returned okResponse /\
  exists v,
    fst (validateSession (host := honouringHost) adapter "uuid-0" world0) = Returned v /\
    valid v = Js.includes (Js.toLowerCase (content okResponse)) "ok" /\
    sv_error v = None.
Proof.
  split; [vm_compute; reflexivity|].
  apply (validateSession_valid_iff_ok (host := honouringHost) adapter "uuid-0"
           world0 okResponse).
  vm_compute; reflexivity.
Defined.

(** The CLI that quits without reading, fed a prompt of 5000
    characters. *)
Lemma sendPrompt_dies_when_stdin_breaks_witness :
  let prompt := promptOfLength 5000 in
  let child :=
    promptChild (host := quittingHost) adapter None prompt probeOptions
      (spawned world0) in
  stdin child = true /\
  writtenAtOnce < Js.strlen prompt /\
  events child =
    ([] ++ (3, StdinError (JsError "write EPIPE")) :: [(4, CloseEvent (Some 0))])%list /\
  fst (sendPrompt (host := quittingHost) adapter None prompt probeOptions world0) =
    Died (JsError "write EPIPE").
Proof.
  intros prompt child.
  split; [reflexivity|]. split; [vm_compute; reflexivity|]. split; [reflexivity|].
  apply (sendPrompt_dies_when_stdin_breaks (host := quittingHost) adapter None
           prompt probeOptions world0 [] [(4, CloseEvent (Some 0))] 3
           (JsError "write EPIPE")); reflexivity.
Defined.


Lemma createSession_returns_reported_id_witness :
  fst (createSession (host := ignoringHost) adapter "You are a reviewer." noOptions
         world0) = Returned "session-1" /\
  randomUUID (Host := ignoringHost) (minted world0) = "uuid-0" /\
  exists out t claudeResponse,
    p_settled
      (runChild adapter (sessionInput "You are a reviewer." noOptions)
         (spawn (Host := ignoringHost) (spawned world0) (binary adapter)
            ("--output-format" :: "json" :: "--session-id" :: "uuid-0" :: [])
            (sessionInput "You are a reviewer." noOptions))) =
      Some (Returned out, t) /\
    parseClaudeCLIResponse (stdout out) = Returned claudeResponse /\
    is_error claudeResponse = false /\
    "session-1" = session_id claudeResponse /\
    ("session-1" = "uuid-0" <-> session_id claudeResponse = "uuid-0").
Proof.
  split; [vm_compute; reflexivity|]. split; [reflexivity|].
  apply (createSession_returns_reported_id (host := ignoringHost) adapter
           "You are a reviewer." noOptions world0 "session-1").
  vm_compute; reflexivity.
Defined.

(** The honouring CLI honours [--session-id]. *)
Lemma honouringHost_honours :
  honoursSessionId (host := honouringHost) adapter.
Proof.
  intros context options uuid n out t r Hout Hparse _.
  unfold sessionChild, sessionArgs in Hout. cbn in Hout.
  injection Hout as <-. cbn in Hparse.
  destruct uuid; [discriminate Hparse|].
  injection Hparse as <-. reflexivity.
Defined.

Lemma createSession_fresh_when_cli_honours_id_witness :
  let w1 := snd (createSession (host := honouringHost) adapter "You are a reviewer."
                   noOptions world0) in
  let w2 := snd (createSession (host := honouringHost) adapter "You are a reviewer."
                   noOptions w1) in
  createSession (host := honouringHost) adapter "You are a reviewer." noOptions world0
    = (Returned "uuid-0", w1) /\
  createSession (host := honouringHost) adapter "You are a reviewer." noOptions w1
    = (Returned "uuid-1", w2) /\
  "uuid-0" <> "uuid-1".
Proof.
  intros w1 w2.
  assert (H1 : createSession (host := honouringHost) adapter "You are a reviewer."
                 noOptions world0 = (Returned "uuid-0", w1))
    by (vm_compute; reflexivity).
  assert (H2 : createSession (host := honouringHost) adapter "You are a reviewer."
                 noOptions w1 = (Returned "uuid-1", w2))
    by (vm_compute; reflexivity).
  split; [exact H1|]. split; [exact H2|].
  apply (createSession_fresh_when_cli_honours_id (host := honouringHost) adapter
           "You are a reviewer." noOptions world0 w1 w2 "uuid-0" "uuid-1" H1 H2
           honouringHost_honours).
  vm_compute. discriminate.
Defined.

(** Against C3 as stated: with a CLI that ignores [--session-id], two
    consecutive successful calls with the same context return the same
    identifier. *)
Lemma createSession_can_repeat_an_identifier :
  ~ (forall (schema : ResponseSchema) (defaults : Defaults) (host : Host)
       (this : ClaudeCLIAdapter) (context : string) (options : ProviderSessionOptions)
       (w w1 w2 : World) (id1 id2 : string),
       createSession this context options w = (Returned id1, w1) ->
       createSession this context options w1 = (Returned id2, w2) ->
       id1 <> id2).
Proof.
  intros claim.
  set (w1 := snd (createSession (host := ignoringHost) adapter "You are a reviewer."
                    noOptions world0)).
  set (w2 := snd (createSession (host := ignoringHost) adapter "You are a reviewer."
                    noOptions w1)).
  apply (claim plainSchema sampleDefaults ignoringHost adapter "You are a reviewer."
           noOptions world0 w1 w2 "session-1" "session-1").
  - vm_compute; reflexivity.
  - vm_compute; reflexivity.
  - reflexivity.
Qed.

(** Against C8 as stated: the CLI is available and answers "no" to the
    test prompt; [getHealth] reports [healthy = true] although the
    response holds no "ok". *)
Lemma getHealth_ignores_the_response_text :
  ~ (forall (schema : ResponseSchema) (defaults : Defaults) (host : Host)
       (this : ClaudeCLIAdapter) (w : World) (testResponse : ProviderResponse)
       (h : ProviderHealth),
       fst (isAvailable this w) = Returned true ->
       fst (sendPrompt this None healthPrompt probeOptions w) = Returned testResponse ->
       fst (getHealth this w) = Returned h ->
       healthy h = Js.includes (Js.toLowerCase (content testResponse)) "ok").
Proof.
  intros claim.
  pose (r := noResponse).
  pose (h := {| healthy := true; checkedAt := 948; responseTimeMs := 948;
                ph_error := None;
                details := DetailsTested "claude" "no" |}).
  assert (H : healthy h = Js.includes (Js.toLowerCase (content r)) "ok").
  { apply (claim plainSchema sampleDefaults curtHost adapter world0 r h);
      vm_compute; reflexivity. }
  vm_compute in H. discriminate H.
Qed.

End Runs.

(* ------------------------------------------------------------------ *)
(** ** The static utility methods *)

Lemma ceilDiv_4_bounds (n : Z) : 4 * (ceilDiv n 4 - 1) < n <= 4 * ceilDiv n 4.
Proof.
  unfold ceilDiv.
  pose proof (Z.div_mod (- n) 4 ltac:(lia)) as Hdm.
  pose proof (Z.mod_pos_bound (- n) 4 ltac:(lia)) as Hb.
  lia.
Qed.

(** X1. [getModelRecommendation] recommends Haiku for a prompt of at
    most 80000 characters and Sonnet for a longer one; the reason it
    gives changes once more above 200000 characters. *)
Theorem getModelRecommendation_thresholds (promptLength : Z) :
  let r := getModelRecommendation promptLength in
  (promptLength <= 80000 ->
   recommendedModel r = "claude-3-5-haiku-20241022" /\
   recommendationReason r = "Small prompt suitable for efficient Haiku model") /\
  (80000 < promptLength <= 200000 ->
   recommendedModel r = "claude-3-5-sonnet-20241022" /\
   recommendationReason r = "Medium-large prompt works better with Sonnet than Haiku") /\
  (200000 < promptLength ->
   recommendedModel r = "claude-3-5-sonnet-20241022" /\
   recommendationReason r = "Large prompt requires Sonnet for reliable processing").
Proof.
  intros r. unfold r, getModelRecommendation.
  pose proof (ceilDiv_4_bounds promptLength) as Hb.
  destruct (50000 <? ceilDiv promptLength 4) eqn:H1;
    [apply Z.ltb_lt in H1|apply Z.ltb_ge in H1];
    (destruct (20000 <? ceilDiv promptLength 4) eqn:H2;
     [apply Z.ltb_lt in H2|apply Z.ltb_ge in H2]);
    cbn [recommendedModel recommendationReason];
    repeat split; intros; try reflexivity; lia.
Qed.

(** X2. The estimate of [getModelRecommendation] is the least number of
    four-character tokens that cover the prompt, it never decreases
    when the prompt grows, and the model recommended is always one of
    the supported models. *)
Theorem getModelRecommendation_estimate (promptLength longer : Z) :
  let r := getModelRecommendation promptLength in
  4 * (estimatedTokens r - 1) < promptLength <= 4 * estimatedTokens r /\
  In (recommendedModel r) supportedModels /\
  (promptLength <= longer ->
   estimatedTokens r <= estimatedTokens (getModelRecommendation longer)).
Proof.
  intros r.
  assert (He : forall n, estimatedTokens (getModelRecommendation n) = ceilDiv n 4).
  { intros n. unfold getModelRecommendation.
    destruct (50000 <? ceilDiv n 4); [reflexivity|].
    destruct (20000 <? ceilDiv n 4); reflexivity. }
  unfold r. rewrite !He.
  pose proof (ceilDiv_4_bounds promptLength) as Hb.
  pose proof (ceilDiv_4_bounds longer) as Hl.
  split; [exact Hb|]. split.
  - unfold getModelRecommendation, supportedModels.
    destruct (50000 <? ceilDiv promptLength 4); [cbn; tauto|].
    destruct (20000 <? ceilDiv promptLength 4); cbn; tauto.
  - intros Hle. lia.
Qed.

Lemma readWord_quoted (arg : string) :
  readWord true (replaceQuotes arg ++ "'") = Some arg.
Proof.
  induction arg as [|c t IH]; [reflexivity|].
  cbn [replaceQuotes]. destruct (Ascii.eqb c "'") eqn:Hc.
  - apply Ascii.eqb_eq in Hc. subst c.
    change (("'\''" ++ replaceQuotes t) ++ "'")
      with (String "'" (String "\" (String "'" (String "'"
              (replaceQuotes t ++ "'"))))).
    cbn [readWord Ascii.eqb Bool.eqb]. rewrite IH. reflexivity.
  - change (String c (replaceQuotes t) ++ "'")
      with (String c (replaceQuotes t ++ "'")).
    cbn [readWord]. rewrite Hc, IH. reflexivity.
Qed.

(** X3. A shell that reads the text made by [escapeShellArgument] sees
    one word, and that word is the argument, whatever characters the
    argument holds. *)
Theorem escapeShellArgument_round_trip (arg : string) :
  readWord false (escapeShellArgument arg) = Some arg.
Proof.
  unfold escapeShellArgument.
  change ("'" ++ replaceQuotes arg ++ "'")
    with (String "'" (replaceQuotes arg ++ "'")).
  cbn [readWord Ascii.eqb Bool.eqb]. apply readWord_quoted.
Qed.

Lemma length_append (a b : string) :
  String.length (a ++ b) = (String.length a + String.length b)%nat.
Proof. induction a as [|c t IH]; simpl; [reflexivity|]. now rewrite IH. Qed.

(** The number of single quotes in a string. *)
Lemma replaceQuotes_length (arg : string) :
  exists quotes : nat,
    (quotes <= String.length arg)%nat /\
    String.length (replaceQuotes arg) = (String.length arg + 3 * quotes)%nat.
Proof.
  induction arg as [|c t (q & Hq & IH)]; [exists 0%nat; split; [lia|reflexivity]|].
  cbn [replaceQuotes]. destruct (Ascii.eqb c "'").
  - exists (S q). split; [simpl; lia|].
    rewrite length_append, IH. simpl. lia.
  - exists q. split; [simpl; lia|]. simpl. rewrite IH. lia.
Qed.

(** X4. Two arguments never escape to the same text, and escaping adds
    two characters for the outer quotes and three for every quote of
    the argument: the text is at most four times as long, plus two. *)
Theorem escapeShellArgument_injective_and_bounded (a b : string) :
  (escapeShellArgument a = escapeShellArgument b -> a = b) /\
  (String.length a + 2 <= String.length (escapeShellArgument a)
   <= 4 * String.length a + 2)%nat.
Proof.
  split.
  - intros H.
    assert (Hread : forall x, readWord false (escapeShellArgument x) = Some x).
    { intros x. unfold escapeShellArgument.
      change ("'" ++ replaceQuotes x ++ "'")
        with (String "'" (replaceQuotes x ++ "'")).
      cbn [readWord Ascii.eqb Bool.eqb]. apply readWord_quoted. }
    pose proof (Hread a) as Ha. pose proof (Hread b) as Hb.
    rewrite H in Ha. rewrite Ha in Hb. now injection Hb.
  - unfold escapeShellArgument.
    destruct (replaceQuotes_length a) as (q & Hq & Hl).
    rewrite !length_append, Hl. simpl. lia.
Qed.

(** *** Trimming *)


Lemma rev_append (a b : string) : Js.rev (a ++ b) = Js.rev b ++ Js.rev a.
Proof.
  induction a as [|c t IH]; simpl.
  - now rewrite append_empty_r.
  - now rewrite IH, append_assoc.
Qed.

Lemma rev_involutive (s : string) : Js.rev (Js.rev s) = s.
Proof.
  induction s as [|c t IH]; simpl; [reflexivity|].
  rewrite rev_append, IH. reflexivity.
Qed.

(** A string that does not open, or does not close, with white space. *)
Lemma lastChar_append_one (s : string) (c : ascii) :
  lastChar (s ++ String c EmptyString) = Some c.
Proof.
  induction s as [|x t IH]; [reflexivity|].
  simpl. rewrite IH. destruct (t ++ String c EmptyString) eqn:E; [|reflexivity].
  destruct t; discriminate E.
Qed.

Lemma firstChar_rev (s : string) : firstChar (Js.rev s) = lastChar s.
Proof.
  induction s as [|c t IH]; [reflexivity|].
  simpl. destruct t as [|d t']; [reflexivity|].
  rewrite <- IH. simpl. destruct (Js.rev t' ++ String d EmptyString) eqn:E.
  - destruct (Js.rev t'); discriminate E.
  - reflexivity.
Qed.

Lemma lastChar_rev (s : string) : lastChar (Js.rev s) = firstChar s.
Proof. rewrite <- firstChar_rev, rev_involutive. reflexivity. Qed.

Lemma trimStart_fixed (s : string) :
  match firstChar s with
  | Some c => Js.isWhiteSpace c = false
  | None => True
  end ->
  Js.trimStart s = s.
Proof. destruct s as [|c t]; [reflexivity|]. simpl. intros ->. reflexivity. Qed.

Lemma trimStart_head (s : string) :
  match firstChar (Js.trimStart s) with
  | Some c => Js.isWhiteSpace c = false
  | None => True
  end.
Proof.
  induction s as [|c t IH]; [exact I|].
  simpl. destruct (Js.isWhiteSpace c) eqn:Hc; [exact IH|]. simpl. exact Hc.
Qed.

Lemma trimStart_last (s : string) :
  Js.trimStart s = EmptyString \/ lastChar (Js.trimStart s) = lastChar s.
Proof.
  induction s as [|c t IH]; [left; reflexivity|].
  simpl. destruct (Js.isWhiteSpace c).
  - destruct IH as [IH|IH]; [left; exact IH|].
    destruct t as [|d t']; [left; reflexivity|right].
    rewrite IH. reflexivity.
  - right. reflexivity.
Qed.

Lemma trimStart_split (s : string) : exists ws, s = ws ++ Js.trimStart s.
Proof.
  induction s as [|c t (ws & IH)]; [exists EmptyString; reflexivity|].
  simpl. destruct (Js.isWhiteSpace c).
  - exists (String c ws). simpl. now rewrite <- IH.
  - exists EmptyString. reflexivity.
Qed.

(** What [trim] returns neither opens nor closes with white space. *)
Lemma trim_clean (s : string) :
  match firstChar (Js.trim s) with
  | Some c => Js.isWhiteSpace c = false
  | None => True
  end /\
  match lastChar (Js.trim s) with
  | Some c => Js.isWhiteSpace c = false
  | None => True
  end.
Proof.
  unfold Js.trim.
  set (a := Js.trimStart s). set (b := Js.trimStart (Js.rev a)).
  rewrite firstChar_rev, lastChar_rev. split.
  - destruct (trimStart_last (Js.rev a)) as [H|H]; fold b in H.
    + rewrite H. exact I.
    + rewrite H, lastChar_rev. apply trimStart_head.
  - apply trimStart_head.
Qed.

(** A string that neither opens nor closes with white space is left
    alone by [trim]. *)
Lemma trim_fixed (s : string) :
  match firstChar s with
  | Some c => Js.isWhiteSpace c = false
  | None => True
  end ->
  match lastChar s with
  | Some c => Js.isWhiteSpace c = false
  | None => True
  end ->
  Js.trim s = s.
Proof.
  intros Hf Hl. unfold Js.trim.
  rewrite (trimStart_fixed s Hf).
  rewrite (trimStart_fixed (Js.rev s)); [apply rev_involutive|].
  rewrite firstChar_rev. exact Hl.
Qed.

Lemma trim_idempotent (s : string) : Js.trim (Js.trim s) = Js.trim s.
Proof. destruct (trim_clean s) as [Hf Hl]. apply trim_fixed; assumption. Qed.

Lemma trim_split (s : string) : exists a b, s = a ++ Js.trim s ++ b.
Proof.
  unfold Js.trim.
  destruct (trimStart_split s) as (ws & Hs).
  destruct (trimStart_split (Js.rev (Js.trimStart s))) as (ws2 & Hr).
  exists ws, (Js.rev ws2).
  rewrite <- rev_append, <- Hr, rev_involutive. exact Hs.
Qed.

(** *** The match of [extractResponseFromOutput] *)

Lemma upToLast_spec (c : ascii) (t : string) :
  forall m, upToLast c t = Some m ->
  lastChar m = Some c /\ upToLast c m = Some m /\ exists rest, t = m ++ rest.
Proof.
  induction t as [|x t IH]; intros m H; [discriminate H|].
  cbn [upToLast] in H. destruct (upToLast c t) as [m'|] eqn:E.
  - injection H as <-. destruct (IH m' eq_refl) as (Hl & Hu & rest & Ht).
    split; [|split].
    + simpl. destruct m'; [discriminate Hl|exact Hl].
    + cbn [upToLast]. rewrite Hu. reflexivity.
    + exists rest. simpl. now rewrite <- Ht.
  - destruct (Ascii.eqb x c) eqn:Hx; [|discriminate H].
    injection H as <-. apply Ascii.eqb_eq in Hx. subst x.
    split; [reflexivity|]. split.
    + cbn [upToLast]. rewrite Ascii.eqb_refl. reflexivity.
    + exists t. reflexivity.
Qed.

Lemma jsonMatchHere_spec (x : ascii) (t m : string) :
  jsonMatchHere x t = Some m ->
  (firstChar m = Some "{"%char /\ lastChar m = Some "}"%char \/
   firstChar m = Some "["%char /\ lastChar m = Some "]"%char) /\
  jsonMatch m = Some m /\
  exists rest, String x t = m ++ rest.
Proof.
  unfold jsonMatchHere. intros H.
  destruct (Ascii.eqb x "{") eqn:Hb.
  - apply Ascii.eqb_eq in Hb. subst x.
    destruct (upToLast "}" t) as [m'|] eqn:E; [|discriminate H].
    injection H as <-.
    destruct (upToLast_spec _ _ _ E) as (Hl & Hu & rest & Ht).
    split; [left; split; [reflexivity|]|split].
    + simpl. destruct m'; [discriminate Hl|exact Hl].
    + cbn [jsonMatch]. unfold jsonMatchHere.
      rewrite Ascii.eqb_refl, Hu. reflexivity.
    + exists rest. simpl. now rewrite <- Ht.
  - destruct (Ascii.eqb x "[") eqn:Hk; [|discriminate H].
    apply Ascii.eqb_eq in Hk. subst x.
    destruct (upToLast "]" t) as [m'|] eqn:E; [|discriminate H].
    injection H as <-.
    destruct (upToLast_spec _ _ _ E) as (Hl & Hu & rest & Ht).
    split; [right; split; [reflexivity|]|split].
    + simpl. destruct m'; [discriminate Hl|exact Hl].
    + cbn [jsonMatch]. unfold jsonMatchHere.
      change (Ascii.eqb "[" "{") with false.
      rewrite Ascii.eqb_refl, Hu. reflexivity.
    + exists rest. simpl. now rewrite <- Ht.
Qed.

Lemma jsonMatch_spec (s : string) :
  forall m, jsonMatch s = Some m ->
  (firstChar m = Some "{"%char /\ lastChar m = Some "}"%char \/
   firstChar m = Some "["%char /\ lastChar m = Some "]"%char) /\
  jsonMatch m = Some m /\
  exists a b, s = a ++ m ++ b.
Proof.
  induction s as [|x t IH]; intros m H; [discriminate H|].
  cbn [jsonMatch] in H. destruct (jsonMatchHere x t) as [m'|] eqn:E.
  - injection H as <-.
    destruct (jsonMatchHere_spec _ _ _ E) as (Hs & Hm & rest & Ht).
    split; [exact Hs|]. split; [exact Hm|].
    exists EmptyString, rest. exact Ht.
  - destruct (IH m H) as (Hs & Hm & a & b & Ht).
    split; [exact Hs|]. split; [exact Hm|].
    exists (String x a), b. simpl. now rewrite <- Ht.
Qed.

Lemma jsonMatch_trim_fixed (s m : string) : jsonMatch s = Some m -> Js.trim m = m.
Proof.
  intros H. destruct (jsonMatch_spec s m H) as ([[Hf Hl]|[Hf Hl]] & _);
    apply trim_fixed; rewrite ?Hf, ?Hl; reflexivity.
Qed.

(** X5. [extractResponseFromOutput] is idempotent in both modes: what it
    extracted is extracted unchanged a second time. *)
Theorem extractResponseFromOutput_idempotent (output : string) (isJsonMode : bool) :
  extractResponseFromOutput (extractResponseFromOutput output isJsonMode) isJsonMode =
  extractResponseFromOutput output isJsonMode.
Proof.
  unfold extractResponseFromOutput. destruct isJsonMode; cbv zeta.
  - destruct (jsonMatch (Js.trim output)) as [m|] eqn:E.
    + rewrite (jsonMatch_trim_fixed _ _ E).
      destruct (jsonMatch_spec _ _ E) as (_ & -> & _). reflexivity.
    + rewrite trim_idempotent, E. reflexivity.
  - apply trim_idempotent.
Qed.

(** X6. In JSON mode [extractResponseFromOutput] returns a piece of the
    output, never text of its own: either the trimmed output, when that
    holds no brace pair and no bracket pair, or a stretch that opens
    with a brace and closes with a brace, or opens with a bracket and
    closes with a bracket. Outside JSON mode it returns the trimmed
    output. *)
Theorem extractResponseFromOutput_shape (output : string) (isJsonMode : bool) :
  let r := extractResponseFromOutput output isJsonMode in
  (exists before after, output = before ++ r ++ after) /\
  (r = Js.trim output /\ (isJsonMode = true -> jsonMatch (Js.trim output) = None) \/
   isJsonMode = true /\
   (firstChar r = Some "{"%char /\ lastChar r = Some "}"%char \/
    firstChar r = Some "["%char /\ lastChar r = Some "]"%char)).
Proof.
  intros r. unfold r, extractResponseFromOutput. cbv zeta.
  destruct (trim_split output) as (a & b & Ho).
  destruct isJsonMode.
  - destruct (jsonMatch (Js.trim output)) as [m|] eqn:E.
    + destruct (jsonMatch_spec _ _ E) as (Hs & _ & a' & b' & Ht). split.
      * exists (a ++ a'), (b' ++ b).
        rewrite Ho at 1. rewrite Ht. now rewrite !append_assoc.
      * right. split; [reflexivity|exact Hs].
    + split; [exists a, b; exact Ho|]. left. split; [reflexivity|]. intros _. reflexivity.
  - split; [exists a, b; exact Ho|]. left. split; [reflexivity|]. intros H. discriminate H.
Qed.

(* ------------------------------------------------------------------ *)
(** ** Enhancing and classifying together *)

(** What is found in [b] is found in [a ++ b]. *)
Lemma includes_app_r (n b : string) :
  forall a, Js.includes b n = true -> Js.includes (a ++ b) n = true.
Proof.
  induction a as [|x a IH]; intros H; [exact H|].
  change (Js.includes (String x a ++ b) n)
    with (String.prefix n (String x (a ++ b)) || Js.includes (a ++ b) n)%bool.
  rewrite (IH H). apply orb_true_r.
Qed.

(** Text put before a retryable message leaves it retryable. *)
Lemma isRetryableError_prepend (before message : string) :
  isRetryableError (JsError message) = true ->
  isRetryableError (JsError (before ++ message)) = true.
Proof.
  rewrite !isRetryableError_markers. intros H.
  apply existsb_exists in H. destruct H as (marker & Hin & Hinc).
  apply existsb_exists. exists marker. split; [exact Hin|].
  rewrite toLowerCase_app. apply includes_app_r, Hinc.
Qed.

(** X7. [createEnhancedError] never turns a retryable error into one
    that is not: the context it puts before the message leaves every
    marker of the classifier in place. *)
Theorem createEnhancedError_keeps_retryable (message context : string) :
  isRetryableError (JsError message) = true ->
  isRetryableError (createEnhancedError (JsError message) context) = true.
Proof.
  intros H. unfold createEnhancedError. cbn [messageOrString].
  rewrite <- append_assoc. apply isRetryableError_prepend, H.
Qed.

Lemma createEnhancedError_keeps_retryable_witness :
  isRetryableError (JsError "socket hang up: ECONNRESET") = true /\
  isRetryableError
    (createEnhancedError (JsError "socket hang up: ECONNRESET")
       "Failed to send prompt to Claude CLI") = true.
Proof.
  split; [reflexivity|].
  apply (createEnhancedError_keeps_retryable "socket hang up: ECONNRESET"
           "Failed to send prompt to Claude CLI").
  reflexivity.
Defined.

(** X8. [enhanceError] keeps a retryable error retryable, in every
    context, unless one of its rewriting patterns other than the rate
    limit claims the message: command not found, a timeout, an
    authentication failure, a lost session, an unknown model or a
    response that is too large. *)
Theorem enhanceError_keeps_retryable (this : ClaudeCLIAdapter)
  (message context : string) :
  isRetryableError (JsError message) = true ->
  notFoundOrTimedOut message = false ->
  authenticationFailure message = false ->
  sessionNotFound message = false ->
  invalidModel message = false ->
  responseTooLarge message = false ->
  isRetryableError (enhanceError this (JsError message) context) = true.
Proof.
  unfold notFoundOrTimedOut, authenticationFailure, sessionNotFound, invalidModel,
    responseTooLarge.
  intros Hr Hn Ha Hs Hm Hl.
  apply orb_false_elim in Hn. destruct Hn as [Hn Ht].
  apply orb_false_elim in Hn. destruct Hn as [Hn He].
  unfold enhanceError. cbn [messageOrString].
  rewrite Hn, He, Ht, Ha, Hs, Hm, Hl. cbn [orb].
  destruct (Js.includes message "rate limit" ||
            Js.includes message (Js.numberToString HTTP_TOO_MANY_REQUESTS))%bool.
  - apply isRetryableError_prepend. reflexivity.
  - rewrite <- append_assoc. apply isRetryableError_prepend, Hr.
Qed.

Lemma enhanceError_keeps_retryable_witness :
  let this := {| binary := "claude"; timeout := 30000; maxBuffer := 10485760 |} in
  let message := "upstream answered 503 Service Unavailable" in
  isRetryableError (JsError message) = true /\
  isRetryableError
    (enhanceError this (JsError message) "Failed to send prompt to Claude CLI") = true.
Proof.
  intros this message. split; [reflexivity|].
  apply (enhanceError_keeps_retryable this message
           "Failed to send prompt to Claude CLI"); reflexivity.
Defined.

(** X9. An authentication failure that reaches the authentication
    pattern of [enhanceError] leaves [sendPrompt] and [createSession] as
    an error that is not retryable, whatever else the message says. *)
Theorem enhanced_authentication_failure_is_fatal (this : ClaudeCLIAdapter)
  (message context : string) :
  context = "Failed to send prompt to Claude CLI" \/
  context = "Failed to create Claude CLI session" ->
  notFoundOrTimedOut message = false ->
  rateLimited message = false ->
  authenticationFailure message = true ->
  enhanceError this (JsError message) context =
    JsError (context ++
      ": Claude CLI authentication failed. Please run: claude auth login") /\
  isRetryableError (enhanceError this (JsError message) context) = false.
Proof.
  unfold notFoundOrTimedOut, rateLimited.
  intros Hc Hn Hr Ha.
  apply orb_false_elim in Hn. destruct Hn as [Hn Ht].
  apply orb_false_elim in Hn. destruct Hn as [Hn He].
  assert (E : enhanceError this (JsError message) context =
              JsError (context ++
                ": Claude CLI authentication failed. Please run: claude auth login")).
  { apply enhanceError_authentication; try assumption.
    rewrite He, Ht. reflexivity. }
  split; [exact E|]. rewrite E.
  destruct Hc as [-> | ->]; vm_compute; reflexivity.
Qed.

Lemma enhanced_authentication_failure_is_fatal_witness :
  let this := {| binary := "claude"; timeout := 30000; maxBuffer := 10485760 |} in
  let message := "Claude CLI command failed with exit code 2: Invalid API key, authentication required" in
  notFoundOrTimedOut message = false /\
  rateLimited message = false /\
  authenticationFailure message = true /\
  isRetryableError
    (enhanceError this (JsError message) "Failed to send prompt to Claude CLI") = false.
Proof.
  intros this message.
  split; [reflexivity|]. split; [reflexivity|]. split; [reflexivity|].
  apply (enhanced_authentication_failure_is_fatal this message
           "Failed to send prompt to Claude CLI"); try reflexivity.
  left. reflexivity.
Defined.

(** X10. An unknown model that reaches the model pattern of
    [enhanceError] is reported with the list of supported models, and
    the error is not retryable. *)
Theorem enhanced_invalid_model_is_fatal (this : ClaudeCLIAdapter)
  (message context : string) :
  context = "Failed to send prompt to Claude CLI" \/
  context = "Failed to create Claude CLI session" ->
  notFoundOrTimedOut message = false ->
  rateLimited message = false ->
  authenticationFailure message = false ->
  sessionNotFound message = false ->
  invalidModel message = true ->
  enhanceError this (JsError message) context =
    JsError (context ++ ": Invalid model specified. Supported models: " ++
             "claude-3-5-sonnet-20241022, claude-3-5-haiku-20241022, " ++
             "claude-3-opus-20240229, claude-3-sonnet-20240229, " ++
             "claude-3-haiku-20240307, sonnet, haiku, opus") /\
  isRetryableError (enhanceError this (JsError message) context) = false.
Proof.
  unfold notFoundOrTimedOut, rateLimited, authenticationFailure, sessionNotFound,
    invalidModel.
  intros Hc Hn Hr Ha Hs Hm.
  apply orb_false_elim in Hn. destruct Hn as [Hn Ht].
  apply orb_false_elim in Hn. destruct Hn as [Hn He].
  assert (E : enhanceError this (JsError message) context =
              JsError (context ++ ": Invalid model specified. Supported models: " ++
                       Js.join ", " supportedModels)).
  { unfold enhanceError. cbn [messageOrString].
    rewrite Hn, He, Ht, Hr, Ha, Hs, Hm. reflexivity. }
  split; [rewrite E; reflexivity|]. rewrite E.
  destruct Hc as [-> | ->]; vm_compute; reflexivity.
Qed.

Lemma enhanced_invalid_model_is_fatal_witness :
  let this := {| binary := "claude"; timeout := 30000; maxBuffer := 10485760 |} in
  let message := "Claude CLI command failed with exit code 2: model gpt-4 not found" in
  notFoundOrTimedOut message = false /\
  rateLimited message = false /\
  authenticationFailure message = false /\
  sessionNotFound message = false /\
  invalidModel message = true /\
  isRetryableError
    (enhanceError this (JsError message) "Failed to create Claude CLI session") = false.
Proof.
  intros this message.
  repeat (split; [reflexivity|]).
  apply (enhanced_invalid_model_is_fatal this message
           "Failed to create Claude CLI session"); try reflexivity.
  right. reflexivity.
Defined.

(** An exit with code 1 on a prompt of at most 10000 characters is
    rewritten by the rate limit pattern: the words "rate limiting" of
    the message the [close] handler builds are enough. *)
Lemma enhanceError_exit_code_1 (this : ClaudeCLIAdapter)
  (input err context : string) :
  Js.strlen input <= 10000 ->
  notFoundOrTimedOut err = false ->
  enhanceError this (JsError (exitMessage (Some 1) input err)) context =
  JsError (context ++ ": Claude API rate limit exceeded. Please wait and try again.").
Proof.
  intros Hlen Hn. unfold exitMessage. cbn [Js.nullableToString].
  change (Js.numberToString 1) with "1".
  assert (Hshort : (10000 <? Js.strlen input) = false) by (apply Z.ltb_ge; exact Hlen).
  rewrite Hshort.
  change ("Claude CLI command failed with exit code " ++ "1")
    with "Claude CLI command failed with exit code 1".
  rewrite !append_assoc.
  assert (Hx : notFoundOrTimedOut (Js.orElse err "No error output") = false).
  { destruct err; [reflexivity|exact Hn]. }
  revert Hx. generalize (Js.orElse err "No error output"). intros rest Hx.
  unfold notFoundOrTimedOut in Hx.
  apply orb_false_elim in Hx. destruct Hx as [Hx Ht].
  apply orb_false_elim in Hx. destruct Hx as [Hx He].
  unfold enhanceError. cbn [messageOrString].
  set (m := "Claude CLI command failed with exit code 1" ++
            " (possible causes: session corruption, rate limiting, or API authentication issues)" ++
            ": " ++ rest).
  assert (H1 : Js.includes m "command not found" = false)
    by (unfold m; simpl; exact Hx).
  assert (H2 : Js.includes m "ETIMEDOUT" = false)
    by (unfold m; simpl; exact He).
  assert (H3 : Js.includes m "timed out" = false)
    by (unfold m; simpl; exact Ht).
  assert (H4 : Js.includes m "rate limit" = true)
    by (unfold m; simpl; reflexivity).
  rewrite H1, H2, H3, H4. reflexivity.
Qed.

Section MorePromptFacts.

Context {schema : ResponseSchema} {defaults : Defaults} {host : Host}.
Variable this : ClaudeCLIAdapter.

(** X11. When the CLI exits with code 1 on a prompt of at most 10000
    characters, [sendPrompt] reports a rate limit, whatever the CLI wrote
    on its standard error, an authentication failure included, as long
    as it wrote neither "command not found" nor a timeout; the failure
    is logged as retryable. *)
Theorem exit_code_1_is_reported_as_rate_limit (sessionId : option string)
  (prompt : string) (options : ProviderPromptOptions) (w : World)
  (err : string) (t : Z) :
  let child := promptChild this sessionId prompt options (spawned w) in
  p_settled (runChild this prompt child) =
    Some (Threw (JsError (exitMessage (Some 1) prompt err)), t) ->
  Js.strlen prompt <= 10000 ->
  notFoundOrTimedOut err = false ->
  fst (sendPrompt this sessionId prompt options w) =
    Threw (JsError "Failed to send prompt to Claude CLI: Claude API rate limit exceeded. Please wait and try again.") /\
  In (LlmError (exitMessage (Some 1) prompt err) true)
     (logged (snd (sendPrompt this sessionId prompt options w))).
Proof.
  intros child Hs Hlen Hn.
  apply runChild_settled in Hs.
  assert (Hres : childResult this prompt child =
                 Threw (JsError (exitMessage (Some 1) prompt err)))
    by (unfold childResult; rewrite Hs; reflexivity).
  destruct (sendPrompt_spec this sessionId prompt options w) as [Hfst Heff].
  fold child in Heff. split.
  - rewrite Hfst. unfold promptOutcome. fold child. rewrite Hres.
    cbn [promptAttempt rethrown].
    rewrite (enhanceError_exit_code_1 this prompt err _ Hlen Hn). reflexivity.
  - pose proof (prompt_classified _ _ _ _ _ _ Heff
                  (JsError (exitMessage (Some 1) prompt err))) as Hc.
    fold child in Hc. rewrite Hres in Hc. specialize (Hc eq_refl).
    cbn [messageOrUnknown] in Hc.
    rewrite (exit_code_1_is_retryable prompt err) in Hc. exact Hc.
Qed.

(** X12. [maxTokens] and [temperature] never reach the CLI, and neither
    does [model] when a session is resumed: two [sendPrompt] calls that
    differ only in those options start the same child process, and they
    reject with the same error, resolve to the same content, token
    usage, session and cost, or end the process with the same
    exception. *)
Theorem sendPrompt_ignores_limits (sessionId : option string) (prompt : string)
  (o1 o2 : ProviderPromptOptions) (w : World) :
  given sessionId = true \/ po_model o1 = po_model o2 ->
  promptArgs sessionId o1 = promptArgs sessionId o2 /\
  match fst (sendPrompt this sessionId prompt o1 w),
        fst (sendPrompt this sessionId prompt o2 w) with
  | Settled (Returned r1), Settled (Returned r2) =>
      content r1 = content r2 /\ tokenUsage r1 = tokenUsage r2 /\
      md_sessionId (metadata r1) = md_sessionId (metadata r2) /\
      md_cost (metadata r1) = md_cost (metadata r2)
  | Settled (Threw e1), Settled (Threw e2) => e1 = e2
  | Died e1, Died e2 => e1 = e2
  | _, _ => False
  end.
Proof.
  intros H.
  assert (Hargs : promptArgs sessionId o1 = promptArgs sessionId o2).
  { unfold promptArgs. destruct H as [H|H].
    - rewrite H.
      destruct (po_model o1) as [m1|]; destruct (po_model o2) as [m2|];
        rewrite ?andb_false_r; reflexivity.
    - rewrite H. reflexivity. }
  split; [exact Hargs|].
  destruct (sendPrompt_spec this sessionId prompt o1 w) as [H1 _].
  destruct (sendPrompt_spec this sessionId prompt o2 w) as [H2 _].
  rewrite H1, H2. unfold promptOutcome, promptChild. rewrite Hargs.
  destruct (childResult _ _ _) as [[out|e]|d]; cbn [promptAttempt rethrown];
    [|reflexivity|reflexivity].
  destruct (parseClaudeCLIResponse (stdout out)) as [r|e]; [|reflexivity].
  destruct (is_error r); [reflexivity|].
  cbn. repeat split.
Qed.

(** X13. Every [sendPrompt] call, however it goes, starts exactly one
    child process, runs no shell command, draws no identifier and kills
    at most the child it started. A call after which the list of killed
    children has changed rejected with the timeout error. *)
Theorem sendPrompt_effects (sessionId : option string) (prompt : string)
  (options : ProviderPromptOptions) (w : World) :
  let w' := snd (sendPrompt this sessionId prompt options w) in
  spawned w' = S (spawned w) /\
  execed w' = execed w /\
  minted w' = minted w /\
  (killed w' = killed w \/
   killed w' = (killed w ++ [spawned w])%list /\
   fst (sendPrompt this sessionId prompt options w) =
     Threw (JsError ("Failed to send prompt to Claude CLI: Claude CLI timed out after " ++
                     Js.numberToString (timeout this) ++
                     "ms. The request may be too complex or the service may be slow."))).
Proof.
  intros w'.
  destruct (sendPrompt_spec this sessionId prompt options w) as [Hfst Heff].
  fold w' in Heff.
  split; [apply (prompt_spawned _ _ _ _ _ _ Heff)|].
  split; [apply (prompt_execed _ _ _ _ _ _ Heff)|].
  split; [apply (prompt_minted _ _ _ _ _ _ Heff)|].
  rewrite (prompt_killed _ _ _ _ _ _ Heff), Hfst.
  unfold promptOutcome, childResult, childSettlement.
  destruct (stdin _); cbn [andb]; [|left; reflexivity].
  destruct (endingOf _ _ _) as [code out t|e t| |e t]; cbn [killedBy];
    try (left; reflexivity).
  right. split; [reflexivity|].
  cbn [settlementOf fst promptAttempt rethrown].
  rewrite enhanceError_timeout. reflexivity.
Qed.

End MorePromptFacts.

(* ------------------------------------------------------------------ *)
(** ** More about sessions, availability and health *)

Section MoreSessionFacts.

Context {schema : ResponseSchema} {defaults : Defaults} {host : Host}.
Variable this : ClaudeCLIAdapter.

Ltac advance :=
  cbv beta iota zeta;
  lazymatch goal with
  | |- post (bind dateNow _) _ _ => apply post_bind_dateNow
  | |- post (bind (log _) _) _ _ => apply post_bind_log
  | |- post (bind (reportStderr _ _ _) _) _ _ => apply post_bind_reportStderr
  | |- post (bind (spawnWithStdin _ _ _) _) _ _ => apply post_bind_spawn
  | |- post (bind (lift _) _) _ _ => apply post_bind_lift
  | |- post (bind drawUUID _) _ _ => apply post_bind_drawUUID
  | |- post (bind (exec _ _) _) _ _ => apply post_bind_exec
  | |- post (tryCatch _ _) _ _ => apply post_tryCatch
  | |- post (ret _) _ _ => apply post_ret
  | |- post (throw _) _ _ => apply post_throw
  | |- post (log _) _ _ => apply post_log
  end;
  cbv beta iota zeta.

Ltac frame :=
  cbn [logTo afterSpawn afterDraw afterExec now spawned execed minted killed logged];
  rewrite ?spawned_reported, ?execed_reported, ?minted_reported, ?killed_reported,
    ?now_reported;
  cbn [logTo afterSpawn afterDraw afterExec now spawned execed minted killed logged].

(** The [try] block of [createSession] throws exactly on an invocation
    failure and is cut short exactly when the write to stdin fails;
    otherwise it returns the session the response reports. *)
Lemma sessionAttempt_cases (input : string) (child : ChildProcess) :
  (invocationFails this input child /\
   exists e, sessionAttempt (childResult this input child) = Threw e) \/
  (exists e, stdinBreaks this input child e /\
             sessionAttempt (childResult this input child) = Died e) \/
  (~ invocationFails this input child /\
   (forall e, ~ stdinBreaks this input child e) /\
   exists out t r,
     endingOf this input child = Exited (Some 0) out t /\
     parseClaudeCLIResponse (stdout out) = Returned r /\
     is_error r = false /\
     sessionAttempt (childResult this input child) = Returned (session_id r)).
Proof.
  unfold childResult, childSettlement, sessionAttempt, stdinBreaks.
  destruct (stdin child) eqn:Hin.
  2:{ left. split; [apply stdin_not_accessible, Hin|]. eexists; reflexivity. }
  destruct (endingOf this input child) as [code out t|error t| |error t] eqn:He.
  4:{ right; left. exists error.
      split; [split; [reflexivity|exists t; reflexivity]|reflexivity]. }
  3:{ left. split; [apply deadline_exceeded; assumption|]. eexists; reflexivity. }
  2:{ left. split; [eapply cannot_be_started; eassumption|]. eexists; reflexivity. }
  assert (Hcode : code = Some 0 \/ code <> Some 0).
  { destruct code as [z|]; [|right; discriminate].
    destruct (Z.eq_dec z 0) as [->|Hz]; [left; reflexivity|].
    right. intros [= ->]. apply Hz. reflexivity. }
  destruct Hcode as [->|Hcode].
  - cbn [settlementOf fst].
    destruct (parseClaudeCLIResponse (stdout out)) as [r|error] eqn:Hp.
    + destruct (is_error r) eqn:Herr.
      * left. split; [eapply response_is_error; eassumption|].
        eexists; reflexivity.
      * right; right. split; [|split].
        -- intros Hf.
           destruct Hf as [c o t' _ H Hc|e t' _ H|H|_ H|o t' e _ H Hp'|o t' r' _ H Hp' Herr'];
             try congruence; rewrite He in H; injection H as <- <- <-;
             congruence.
        -- intros e [_ [t' Hb]]. discriminate Hb.
        -- exists out, t, r. repeat split; try assumption; reflexivity.
    + left. split; [eapply output_not_parsed; eassumption|].
      eexists; reflexivity.
  - left. split; [eapply exits_non_zero; eassumption|].
    destruct code as [[|[c|c|]|c]|]; try (eexists; reflexivity).
    exfalso. apply Hcode. reflexivity.
Qed.

(** X14. How a [createSession] call goes is settled by the child
    process of the call. It rejects, with an error whose message opens
    with the words "Failed to create Claude CLI session", exactly when
    the invocation fails: the CLI exits with a code other than zero, it
    cannot be started, its stdin cannot be accessed, the deadline
    passes, the output does not parse, or the response carries
    [is_error]. The Node process dies of the error of the stdin stream
    exactly when the write of the context to stdin fails while the
    promise is pending. In every other case the call resolves to the
    session the response reports. *)
Theorem createSession_rejects_exactly_on_invocation_failure (context : string)
  (options : ProviderSessionOptions) (w : World) :
  let input := sessionInput context options in
  let child :=
    spawn (spawned w) (binary this) (sessionArgs (randomUUID (minted w)) options)
      input in
  (invocationFails this input child <->
   exists msg,
     fst (createSession this context options w) = Threw (JsError msg) /\
     Js.startsWith msg "Failed to create Claude CLI session: " = true) /\
  (forall error,
     stdinBreaks this input child error <->
     fst (createSession this context options w) = Died error) /\
  (~ invocationFails this input child ->
   (forall error, ~ stdinBreaks this input child error) ->
   exists out t claudeResponse,
     endingOf this input child = Exited (Some 0) out t /\
     parseClaudeCLIResponse (stdout out) = Returned claudeResponse /\
     is_error claudeResponse = false /\
     fst (createSession this context options w) =
       Returned (session_id claudeResponse)).
Proof.
  intros input child.
  destruct (createSession_spec this context options w) as (Hfst & _).
  rewrite Hfst. unfold sessionOutcome, sessionChild. fold input. fold child.
  destruct (sessionAttempt_cases input child)
    as [[Hf [e He]]|[[e [Hb He]]|[Hnf [Hnb (out & t & r & Hend & Hp & Herr & Hret)]]]].
  - rewrite He. cbn [rethrown]. split; [|split].
    + split; [intros _|intros _; exact Hf].
      destruct (enhanceError_context this e "Failed to create Claude CLI session")
        as (msg & -> & Hmsg).
      exists msg. split; [reflexivity|exact Hmsg].
    + intros error. split; [intros Hb|intros H; discriminate H].
      exfalso. destruct Hb as [Hin [t Hb]]. destruct Hf; congruence.
    + intros Hnf. contradiction.
  - rewrite He. cbn [rethrown]. split; [|split].
    + split; [intros Hf|intros (msg & Hmsg & _); discriminate Hmsg].
      exfalso. destruct Hb as [Hin [t Hb]]. destruct Hf; congruence.
    + intros error. split.
      * intros [_ [t1 H1]]. destruct Hb as [_ [t2 H2]].
        rewrite H1 in H2. injection H2 as -> _. reflexivity.
      * intros [= <-]. exact Hb.
    + intros _ Hnb. exfalso. exact (Hnb e Hb).
  - rewrite Hret. cbn [rethrown]. split; [|split].
    + split; [intros Hf; contradiction|].
      intros (msg & Hmsg & _). discriminate Hmsg.
    + intros error. split; [intros Hb; exfalso; exact (Hnb error Hb)|].
      intros H; discriminate H.
    + intros _ _. exists out, t, r. repeat split; assumption.
Qed.

(** X15. Every [createSession] call, however it goes, draws exactly one
    identifier and starts exactly one child process, runs no shell
    command and kills at most the child it started. Unlike [sendPrompt]
    it never asks the classifier for a verdict: it adds no [llmError]
    entry to the log. *)
Theorem createSession_effects (context : string) (options : ProviderSessionOptions)
  (w : World) :
  let w' := snd (createSession this context options w) in
  minted w' = S (minted w) /\
  spawned w' = S (spawned w) /\
  execed w' = execed w /\
  (killed w' = killed w \/ killed w' = (killed w ++ [spawned w])%list) /\
  (forall error verdict,
     In (LlmError error verdict) (logged w') -> In (LlmError error verdict) (logged w)).
Proof.
  intros w'. unfold w'.
  destruct (createSession_spec this context options w) as (_ & Hm & Hs & He).
  split; [exact Hm|]. split; [exact Hs|]. split; [exact He|].
  split; [|intros error verdict; apply createSession_logs_no_verdict].
  change (post (createSession this context options) w
            (fun _ w' =>
               killed w' = killed w \/ killed w' = (killed w ++ [spawned w])%list)).
  unfold createSession, logError, info, debug.
  do 6 advance. cbn [logTo afterDraw spawned].
  set (args := sessionArgs (randomUUID (minted w)) options).
  set (input := match so_temperature options with
                | Some t => _
                | None => context
                end).
  assert (Hfinal : forall w0,
            killed w0 = (if (stdin (spawn (spawned w) (binary this) args input) &&
                             killedBy (endingOf this input
                                (spawn (spawned w) (binary this) args input)))%bool
                         then killed w ++ [spawned w] else killed w)%list ->
            killed w0 = killed w \/ killed w0 = (killed w ++ [spawned w])%list).
  { intros w0 H4. rewrite H4.
    destruct (stdin _ && killedBy _)%bool; [right|left]; reflexivity. }
  destruct (childResult _ _ _) as [[out|e0]|d].
  - do 3 advance. destruct (parseClaudeCLIResponse (stdout out)) as [r|e1].
    + cbv beta iota zeta. destruct (is_error r).
      * do 3 advance. apply Hfinal; frame; reflexivity.
      * do 3 advance. apply Hfinal; frame; reflexivity.
    + do 2 advance. apply Hfinal; frame; reflexivity.
  - do 2 advance. apply Hfinal; frame; reflexivity.
  - apply Hfinal; frame; reflexivity.
Qed.

(** X16. [validateSession] always answers: it never rejects and the
    process does not die of the probe, whose prompt is written at once.
    The response time it reports is the difference of the clock before
    and after the probe. It starts exactly one child process, runs no
    shell command and draws no identifier. When the child of the probe
    was killed, the answer is [valid = false] with the timeout error. *)
Theorem validateSession_always_answers (sessionId : string) (w : World) :
  let w' := snd (validateSession this sessionId w) in
  exists v,
    fst (validateSession this sessionId w) = Returned v /\
    responseTime v = Some (now w' - now w) /\
    spawned w' = S (spawned w) /\
    execed w' = execed w /\
    minted w' = minted w /\
    (killed w' <> killed w ->
     valid v = false /\
     sv_error v =
       Some ("Failed to send prompt to Claude CLI: Claude CLI timed out after " ++
             Js.numberToString (timeout this) ++
             "ms. The request may be too complex or the service may be slow.")).
Proof.
  intros w'. unfold w'.
  change (post (validateSession this sessionId) w
            (fun c w' =>
               exists v,
                 c = Returned v /\ responseTime v = Some (now w' - now w) /\
                 spawned w' = S (spawned w) /\ execed w' = execed w /\
                 minted w' = minted w /\
                 (killed w' <> killed w ->
                  valid v = false /\
                  sv_error v =
                    Some ("Failed to send prompt to Claude CLI: Claude CLI timed out after " ++
                          Js.numberToString (timeout this) ++
                          "ms. The request may be too complex or the service may be slow.")))).
  unfold validateSession, logError, info.
  do 3 advance. apply post_bind_sendPrompt. intros w1 Hw.
  pose proof (prompt_spawned _ _ _ _ _ _ Hw) as Hsp.
  pose proof (prompt_minted _ _ _ _ _ _ Hw) as Hmi.
  pose proof (prompt_execed _ _ _ _ _ _ Hw) as Hex.
  pose proof (prompt_killed _ _ _ _ _ _ Hw) as Hki.
  cbn [logTo spawned minted execed killed] in Hsp, Hmi, Hex, Hki.
  assert (Hkilled :
            killed w1 <> killed w ->
            promptOutcome this (Some sessionId) validationPrompt probeOptions
              (spawned w) =
            Threw (JsError ("Failed to send prompt to Claude CLI: Claude CLI timed out after " ++
                            Js.numberToString (timeout this) ++
                            "ms. The request may be too complex or the service may be slow."))).
  { intros Hne. rewrite Hki in Hne.
    unfold promptOutcome, childResult, childSettlement.
    destruct (stdin _); cbn [andb] in Hne; [|contradiction Hne; reflexivity].
    destruct (endingOf _ _ _) as [code out t|e t| |e t]; cbn [killedBy] in Hne;
      try (contradiction Hne; reflexivity).
    cbn [settlementOf fst promptAttempt rethrown].
    rewrite enhanceError_timeout. reflexivity. }
  destruct (promptOutcome this _ _ _ _) as [[r|e]|d] eqn:Hout.
  - do 3 advance. eexists. frame.
    split; [reflexivity|]. split; [reflexivity|].
    do 3 (split; [assumption|]).
    intros Hne. specialize (Hkilled Hne). discriminate Hkilled.
  - do 3 advance. eexists. frame.
    split; [reflexivity|]. split; [reflexivity|].
    do 3 (split; [assumption|]).
    intros Hne. specialize (Hkilled Hne). injection Hkilled as ->.
    split; reflexivity.
  - exfalso.
    destruct (promptOutcome_written this (Some sessionId) validationPrompt
                probeOptions (spawned w) eq_refl) as [c Hc].
    rewrite Hc in Hout. discriminate Hout.
Qed.

Lemma prefix_toLowerCase (n : string) :
  forall s, String.prefix n s = true ->
  String.prefix (Js.toLowerCase n) (Js.toLowerCase s) = true.
Proof.
  induction n as [|y n IH]; intros s H.
  - destruct s; reflexivity.
  - destruct s as [|x s]; [discriminate H|].
    simpl in *. destruct (ascii_dec y x) as [->|]; [|discriminate H].
    destruct (ascii_dec (Js.lowerChar x) (Js.lowerChar x)); [apply IH, H|congruence].
Qed.

(** What a text holds, its lowered form holds lowered. *)
Lemma includes_toLowerCase (s n : string) :
  Js.includes s n = true ->
  Js.includes (Js.toLowerCase s) (Js.toLowerCase n) = true.
Proof.
  induction s as [|x t IH]; intros H.
  - simpl in H. rewrite orb_false_r in H.
    destruct n; [reflexivity|discriminate H].
  - change (Js.includes (String x t) n)
      with (String.prefix n (String x t) || Js.includes t n)%bool in H.
    change (Js.includes (Js.toLowerCase (String x t)) (Js.toLowerCase n))
      with (String.prefix (Js.toLowerCase n) (Js.toLowerCase (String x t)) ||
            Js.includes (Js.toLowerCase t) (Js.toLowerCase n))%bool.
    apply orb_true_iff in H. apply orb_true_iff.
    destruct H as [H|H]; [left; apply prefix_toLowerCase, H|right; apply IH, H].
Qed.

(** What [isAvailable] does to the world. *)
Lemma isAvailable_effects (w : World) :
  let w' := snd (isAvailable this w) in
  spawned w' = spawned w /\ minted w' = minted w /\ killed w' = killed w /\
  (S (execed w) <= execed w' <= S (S (execed w)))%nat /\
  (match fst (execAsync (execed w) ("which " ++ binary this) 5000) with
   | Threw _ => True
   | Returned which => Js.trim (stdout which) = EmptyString
   end ->
   fst (isAvailable this w) = Returned false /\ execed w' = S (execed w)) /\
  (fst (isAvailable this w) = Returned true ->
   exists which version,
     fst (execAsync (execed w) ("which " ++ binary this) 5000) = Returned which /\
     Js.trim (stdout which) <> EmptyString /\
     fst (execAsync (S (execed w)) (binary this ++ " --version") 5000) =
       Returned version /\
     Js.includes (Js.toLowerCase (stdout version)) "claude" = true).
Proof.
  intros w'. unfold w'.
  change (post (isAvailable this) w
            (fun c w' =>
               spawned w' = spawned w /\ minted w' = minted w /\
               killed w' = killed w /\
               (S (execed w) <= execed w' <= S (S (execed w)))%nat /\
               (match fst (execAsync (execed w) ("which " ++ binary this) 5000) with
                | Threw _ => True
                | Returned which => Js.trim (stdout which) = EmptyString
                end ->
                c = Returned false /\ execed w' = S (execed w)) /\
               (c = Returned true ->
                exists which version,
                  fst (execAsync (execed w) ("which " ++ binary this) 5000) =
                    Returned which /\
                  Js.trim (stdout which) <> EmptyString /\
                  fst (execAsync (S (execed w)) (binary this ++ " --version") 5000) =
                    Returned version /\
                  Js.includes (Js.toLowerCase (stdout version)) "claude" = true))).
  unfold isAvailable.
  do 2 advance.
  destruct (fst (execAsync (execed w) _ _)) as [which|e].
  - cbv beta iota zeta.
    destruct (Js.trim (stdout which)) as [|c0 rest] eqn:Htrim; cbn [Js.truthy negb].
    + advance. frame.
      do 3 (split; [reflexivity|]). split; [lia|].
      split; [intros _; split; reflexivity|intros Hc; discriminate Hc].
    + advance. frame.
      destruct (fst (execAsync (S (execed w)) _ _)) as [version|e] eqn:Hv.
      * advance. frame.
        do 3 (split; [reflexivity|]). split; [lia|].
        split; [intros Hw; discriminate Hw|intros Hc].
        injection Hc as Hc. exists which, version.
        split; [reflexivity|]. split; [rewrite Htrim; discriminate|].
        split; [reflexivity|].
        apply orb_true_iff in Hc. destruct Hc as [Hc|Hc]; [exact Hc|].
        apply (includes_toLowerCase _ "Claude"), Hc.
      * advance. frame.
        do 3 (split; [reflexivity|]). split; [lia|].
        split; [intros Hw; discriminate Hw|intros Hc; discriminate Hc].
  - advance. frame.
    do 3 (split; [reflexivity|]). split; [lia|].
    split; [intros _; split; reflexivity|intros Hc; discriminate Hc].
Qed.

(** X17. [isAvailable] never rejects. It answers true exactly when
    [which] prints something other than white space, the version
    command succeeds, and the version output, lowered, holds "claude";
    the second, case-sensitive test of the source adds nothing. When
    [which] fails or prints nothing, the version command is not run. *)
Theorem isAvailable_answer (w : World) :
  exists b,
    fst (isAvailable this w) = Returned b /\
    (b = true <->
     exists which version,
       fst (execAsync (execed w) ("which " ++ binary this) 5000) = Returned which /\
       Js.trim (stdout which) <> EmptyString /\
       fst (execAsync (S (execed w)) (binary this ++ " --version") 5000) =
         Returned version /\
       Js.includes (Js.toLowerCase (stdout version)) "claude" = true) /\
    (match fst (execAsync (execed w) ("which " ++ binary this) 5000) with
     | Threw _ => True
     | Returned which => Js.trim (stdout which) = EmptyString
     end ->
     b = false /\ execed (snd (isAvailable this w)) = S (execed w)).
Proof.
  destruct (isAvailable_effects w) as (_ & _ & _ & _ & Hblank & Htrue).
  pose proof (isAvailable_completion this w) as Hc.
  exists (available this (execed w)). split; [exact Hc|]. split; [split|].
  - intros Hb. apply Htrue. rewrite Hc, Hb. reflexivity.
  - intros (which & version & Hw & Ht & Hv & Hi).
    unfold available. rewrite Hw, Hv, Hi.
    destruct (Js.trim (stdout which)); [contradiction Ht; reflexivity|].
    reflexivity.
  - intros H. destruct (Hblank H) as [Hf He]. rewrite Hc in Hf.
    injection Hf as Hf. split; assumption.
Qed.

(** X18. [getHealth] sends its test prompt only to a CLI that
    [isAvailable] found: otherwise it starts no child process, and
    leaves the log and the list of killed children as they were. When
    the CLI is available it starts exactly one child. It never draws an
    identifier, it runs one or two shell commands, and the test response
    it keeps in the details has at most 100 characters. *)
Theorem getHealth_effects (w : World) :
  let w' := snd (getHealth this w) in
  minted w' = minted w /\
  (S (execed w) <= execed w' <= S (S (execed w)))%nat /\
  (fst (isAvailable this w) = Returned false ->
   spawned w' = spawned w /\ killed w' = killed w /\ logged w' = logged w) /\
  (fst (isAvailable this w) = Returned true -> spawned w' = S (spawned w)) /\
  (forall h b text,
     fst (getHealth this w) = Returned h ->
     details h = DetailsTested b text ->
     (String.length text <= 100)%nat).
Proof.
  intros w'. unfold w'.
  change (post (getHealth this) w
            (fun c w' =>
               minted w' = minted w /\
               (S (execed w) <= execed w' <= S (S (execed w)))%nat /\
               (fst (isAvailable this w) = Returned false ->
                spawned w' = spawned w /\ killed w' = killed w /\
                logged w' = logged w) /\
               (fst (isAvailable this w) = Returned true ->
                spawned w' = S (spawned w)) /\
               (forall h b text,
                  c = Returned h -> details h = DetailsTested b text ->
                  (String.length text <= 100)%nat))).
  assert (Hsub : forall (n : nat) (s : string),
            (String.length (Js.substring0 n s) <= n)%nat).
  { unfold Js.substring0. induction n as [|n IH]; intros s.
    - destruct s; simpl; lia.
    - destruct s as [|c t]; simpl; [lia|]. specialize (IH t). lia. }
  unfold getHealth.
  do 2 advance. apply post_bind. unfold post at 1.
  destruct (isAvailable_effects w) as (Hsp & Hmi & Hki & Hex & _ & _).
  destruct (isAvailable_spec this w) as (Hc & _ & _ & _ & Hlog).
  set (w1 := snd (isAvailable this w)) in *.
  rewrite Hc. advance.
  destruct (available this (execed w)); cbn [negb]; cbv beta iota zeta.
  - apply post_bind_sendPrompt. intros w2 Hw.
    pose proof (prompt_spawned _ _ _ _ _ _ Hw) as H2s.
    pose proof (prompt_execed _ _ _ _ _ _ Hw) as H2e.
    pose proof (prompt_minted _ _ _ _ _ _ Hw) as H2m.
    destruct (promptOutcome_written this None healthPrompt probeOptions
                (spawned w1) eq_refl) as [probe Hprobe].
    rewrite Hprobe. destruct probe as [r|e].
    + do 2 advance.
      split; [congruence|]. split; [rewrite H2e; exact Hex|].
      split; [intros H; discriminate H|]. split; [intros _; congruence|].
      intros h b text Hh Hd. injection Hh as <-. cbn [details] in Hd.
      injection Hd as _ <-. apply Hsub.
    + do 2 advance.
      split; [congruence|]. split; [rewrite H2e; exact Hex|].
      split; [intros H; discriminate H|]. split; [intros _; congruence|].
      intros h b text Hh Hd. injection Hh as <-. discriminate Hd.
  - advance.
    split; [exact Hmi|]. split; [exact Hex|].
    split; [intros _; repeat split; assumption|]. split; [intros H; discriminate H|].
    intros h b text Hh Hd. injection Hh as <-. discriminate Hd.
Qed.

End MoreSessionFacts.

(* ------------------------------------------------------------------ *)
(** ** More about the child process *)

Section MoreChildFacts.

Context {schema : ResponseSchema} {defaults : Defaults} {host : Host}.
Variable this : ClaudeCLIAdapter.

(** X19. When the child closes before the deadline, after output
    events only, [spawnWithStdin] settles with everything the child
    wrote before the [close] event, each stream in the order of
    delivery: with code 0 it resolves with the two texts, with another
    code it rejects with the exit message built from the standard error
    text and logs the failure. The child is not killed, and whatever
    comes after the [close] event changes nothing. *)
Theorem spawnWithStdin_collects_output (args : list string) (input : string)
  (w : World) (chunks rest : list (Z * ChildEvent)) (t : Z) (code : option Z) :
  let child := spawn (spawned w) (binary this) args input in
  let out := {| stdout := stdoutOf chunks; stderr := stderrOf chunks |} in
  let w' := snd (spawnWithStdin this args input w) in
  stdin child = true ->
  events child = (chunks ++ (t, CloseEvent code) :: rest)%list ->
  forallb (writesBefore (timerDelay (timeout this))) chunks = true ->
  t < timerDelay (timeout this) ->
  fst (spawnWithStdin this args input w) =
    match code with
    | Some 0 => Returned out
    | _ => Threw (JsError (exitMessage code input (stderrOf chunks)))
    end /\
  spawned w' = S (spawned w) /\
  killed w' = killed w /\
  logged w' = (logged w ++ match code with
                           | Some 0 => []
                           | _ => [exitDetails code out]
                           end)%list.
Proof.
  intros child out w' Hin Hev Hc Ht. unfold w'.
  rewrite spawnWithStdin_spec. unfold childResult, afterSpawn, childSettlement.
  fold child. rewrite Hin. cbn [andb fst snd spawned killed logged].
  assert (He : endingOf this input child = Exited code out t).
  { unfold endingOf. rewrite Hev, (ending_chunks _ _ chunks _ _ _ Hc).
    cbn [ending].
    assert (Hd : (timerDelay (timeout this) <=? t) = false)
      by (apply Z.leb_gt; exact Ht).
    rewrite Hd. reflexivity. }
  rewrite He. cbn [killedBy].
  destruct code as [[|[c|c|]|c]|]; repeat split; reflexivity.
Qed.

(** X20. [spawnWithStdin] kills the child only when its own deadline
    passed: a call after which the list of killed children has changed
    added the child it started and rejected with the timeout error. A
    call that resolves kills nothing and logs nothing, and so does a
    call during which the process dies. *)
Theorem spawnWithStdin_kills_only_on_deadline (args : list string) (input : string)
  (w : World) :
  let r := fst (spawnWithStdin this args input w) in
  let w' := snd (spawnWithStdin this args input w) in
  (killed w' <> killed w ->
   killed w' = (killed w ++ [spawned w])%list /\
   r = Threw (JsError (timeoutMessage this))) /\
  (forall out, r = Returned out -> killed w' = killed w /\ logged w' = logged w) /\
  (forall error, r = Died error -> killed w' = killed w /\ logged w' = logged w).
Proof.
  intros r w'. unfold r, w'. rewrite spawnWithStdin_spec.
  cbn [fst snd]. unfold childResult, afterSpawn, childSettlement.
  cbn [killed logged].
  set (child := spawn (spawned w) (binary this) args input).
  destruct (stdin child); cbn [andb].
  - destruct (endingOf this input child) as [code out t|error t| |error t];
      cbn [killedBy loggedBy settlementOf fst snd].
    + split; [intros H; contradiction H; reflexivity|]. split.
      * intros out0 Hr. split; [reflexivity|].
        destruct code as [[|[c|c|]|c]|]; try discriminate Hr.
        apply app_nil_r.
      * intros error Hr. destruct code as [[|[c|c|]|c]|]; discriminate Hr.
    + split; [intros H; contradiction H; reflexivity|]. split.
      * intros out0 Hr. discriminate Hr.
      * intros e Hr. discriminate Hr.
    + split; [intros _; split; reflexivity|]. split.
      * intros out0 Hr. discriminate Hr.
      * intros e Hr. discriminate Hr.
    + split; [intros H; contradiction H; reflexivity|]. split.
      * intros out0 Hr. discriminate Hr.
      * intros e _. split; [reflexivity|apply app_nil_r].
  - cbn [fst snd]. split; [intros H; contradiction H; reflexivity|]. split.
    + intros out0 Hr. discriminate Hr.
    + intros e Hr. discriminate Hr.
Qed.

End MoreChildFacts.

(* ------------------------------------------------------------------ *)
(** ** Warnings and the constructor *)

Lemma lowerChar_idempotent (c : ascii) : Js.lowerChar (Js.lowerChar c) = Js.lowerChar c.
Proof. destruct c as [[] [] [] [] [] [] [] []]; reflexivity. Qed.

Lemma toLowerCase_idempotent (s : string) :
  Js.toLowerCase (Js.toLowerCase s) = Js.toLowerCase s.
Proof.
  induction s as [|c t IH]; [reflexivity|].
  cbn [Js.toLowerCase]. now rewrite lowerChar_idempotent, IH.
Qed.

(** X21. [isWarning] looks at the letters, not at their case, and a
    text that holds a warning in the middle is a warning: the verdict on
    a text is the verdict on the lowered text, and text put before and
    after a warning leaves it a warning. *)
Theorem isWarning_case_and_context (stderr : string) :
  isWarning (Js.toLowerCase stderr) = isWarning stderr /\
  (isWarning stderr = true ->
   forall before after, isWarning (before ++ stderr ++ after) = true).
Proof.
  unfold isWarning. cbv zeta. split.
  - rewrite toLowerCase_idempotent. reflexivity.
  - intros H before after. rewrite !toLowerCase_app.
    apply orb_true_iff in H. destruct H as [H|H].
    + apply orb_true_iff in H. destruct H as [H|H].
      * rewrite (includes_app_r _ _ _ (includes_app_l _ _ _ H)). reflexivity.
      * rewrite (includes_app_r _ _ _ (includes_app_l _ _ _ H)).
        rewrite orb_true_r. reflexivity.
    + rewrite (includes_app_r _ _ _ (includes_app_l _ _ _ H)).
      apply orb_true_r.
Qed.

(** X22. The constructor keeps every configured value that is not
    falsy and puts the default in the place of an absent one, of a
    timeout or buffer size of 0 and of an empty binary name. So a
    deadline of 0 cannot be configured: with a default between 1 and
    2^31 - 1 ms, a configured timeout of 0 leaves the calls of the
    adapter with the default deadline. *)
Theorem constructor_replaces_falsy `{defaults : Defaults}
  (config : ClaudeCLIAdapterConfig) :
  let this := constructor config in
  (forall ms, cfg_timeout config = Some ms -> ms <> 0 -> timeout this = ms) /\
  (forall name, cfg_binary config = Some name -> name <> EmptyString ->
                binary this = name) /\
  (forall size, cfg_maxBuffer config = Some size -> size <> 0 ->
                maxBuffer this = size) /\
  (cfg_timeout config = None \/ cfg_timeout config = Some 0 ->
   timeout this = DEFAULT_REQUEST_TIMEOUT_MS /\
   (1 <= DEFAULT_REQUEST_TIMEOUT_MS <= 2147483647 ->
    timerDelay (timeout this) = DEFAULT_REQUEST_TIMEOUT_MS)) /\
  (cfg_binary config = None \/ cfg_binary config = Some EmptyString ->
   binary this = CLAUDE_CLI_BINARY) /\
  (cfg_maxBuffer config = None \/ cfg_maxBuffer config = Some 0 ->
   maxBuffer this = CLAUDE_CLI_MAX_BUFFER).
Proof.
  intros this. unfold this, constructor. cbn [timeout binary maxBuffer].
  split; [|split; [|split; [|split; [|split]]]].
  - intros ms -> Hms. unfold numberOr.
    destruct (ms =? 0) eqn:E; [apply Z.eqb_eq in E; contradiction|reflexivity].
  - intros name -> Hn. unfold stringOr, Js.orElse.
    destruct name; [contradiction Hn; reflexivity|reflexivity].
  - intros size -> Hs. unfold numberOr.
    destruct (size =? 0) eqn:E; [apply Z.eqb_eq in E; contradiction|reflexivity].
  - intros Hc.
    assert (Ht : numberOr (cfg_timeout config) DEFAULT_REQUEST_TIMEOUT_MS =
                 DEFAULT_REQUEST_TIMEOUT_MS) by (destruct Hc as [-> | ->]; reflexivity).
    rewrite Ht. split; [reflexivity|]. intros Hd. unfold timerDelay.
    destruct (1 <=? DEFAULT_REQUEST_TIMEOUT_MS) eqn:E1;
      [|apply Z.leb_gt in E1; lia].
    destruct (DEFAULT_REQUEST_TIMEOUT_MS <=? 2147483647) eqn:E2;
      [reflexivity|apply Z.leb_gt in E2; lia].
  - intros Hc. destruct Hc as [-> | ->]; reflexivity.
  - intros Hc. destruct Hc as [-> | ->]; reflexivity.
Qed.

(* ------------------------------------------------------------------ *)
(** ** More runs *)

Module MoreRuns.

Import Scenario.
#[local] Existing Instance plainSchema.
#[local] Existing Instance sampleDefaults.

(** The refusing CLI: an invalid API key comes back as a rate limit. *)
Lemma exit_code_1_is_reported_as_rate_limit_witness :
  p_settled (runChild adapter "Say OK"
               (promptChild (host := refusingHost) adapter None "Say OK" probeOptions
                  (spawned world0))) =
    Some (Threw (JsError (exitMessage (Some 1) "Say OK" "Invalid API key")), 210) /\
  fst (sendPrompt (host := refusingHost) adapter None "Say OK" probeOptions world0) =
    Threw (JsError "Failed to send prompt to Claude CLI: Claude API rate limit exceeded. Please wait and try again.") /\
  In (LlmError (exitMessage (Some 1) "Say OK" "Invalid API key") true)
     (logged (snd (sendPrompt (host := refusingHost) adapter None "Say OK"
                     probeOptions world0))).
Proof.
  split; [vm_compute; reflexivity|].
  apply (exit_code_1_is_reported_as_rate_limit (host := refusingHost) adapter None
           "Say OK" probeOptions world0 "Invalid API key" 210).
  - vm_compute; reflexivity.
  - vm_compute; discriminate.
  - vm_compute; reflexivity.
Defined.

(** Two calls on a resumed session that differ in all three options. *)
Lemma sendPrompt_ignores_limits_witness :
  let o1 := {| po_model := Some "haiku"; po_maxTokens := Some 10;
               po_temperature := Some 0 |} in
  let o2 := {| po_model := Some "opus"; po_maxTokens := None;
               po_temperature := Some 1 |} in
  promptArgs (Some "uuid-0") o1 = promptArgs (Some "uuid-0") o2 /\
  match fst (sendPrompt (host := honouringHost) adapter (Some "uuid-0") "Say OK" o1 world0),
        fst (sendPrompt (host := honouringHost) adapter (Some "uuid-0") "Say OK" o2 world0)
  with
  | Settled (Returned r1), Settled (Returned r2) =>
      content r1 = content r2 /\ tokenUsage r1 = tokenUsage r2 /\
      md_sessionId (metadata r1) = md_sessionId (metadata r2) /\
      md_cost (metadata r1) = md_cost (metadata r2)
  | Settled (Threw e1), Settled (Threw e2) => e1 = e2
  | Died e1, Died e2 => e1 = e2
  | _, _ => False
  end.
Proof.
  intros o1 o2.
  apply (sendPrompt_ignores_limits (host := honouringHost) adapter (Some "uuid-0")
           "Say OK" o1 o2 world0).
  left. reflexivity.
Defined.

(** The honouring CLI prints one chunk and closes with code 0. *)
Lemma spawnWithStdin_collects_output_witness :
  let w' := snd (spawnWithStdin (host := honouringHost) adapter
                   (promptArgs None probeOptions) "Say OK" world0) in
  fst (spawnWithStdin (host := honouringHost) adapter (promptArgs None probeOptions)
         "Say OK" world0) =
    Returned {| stdout := "OK"; stderr := EmptyString |} /\
  spawned w' = 1%nat /\
  killed w' = [] /\
  logged w' = [].
Proof.
  apply (spawnWithStdin_collects_output (host := honouringHost) adapter
           (promptArgs None probeOptions) "Say OK" world0
           [(900, StdoutData "OK")] [] 905 (Some 0)); reflexivity.
Defined.

End MoreRuns.
